(** * StudyHub backend: a shallow embedding of [server.js]

    The Express handlers of [server.js] are embedded as monadic programs over
    an explicit relational store.  Tables are lists of rows in insertion
    order, a request runs against a connection pool whose calls can fail, and
    a client connection can hold an open transaction.  The properties proved
    at the end of the file are stated over these handlers. *)

From Stdlib Require Import ZArith List String Ascii Bool Lia.
From Stdlib Require Import Permutation Sorted.
Import ListNotations.

Open Scope string_scope.
Open Scope Z_scope.

(* ================================================================== *)
(** ** JavaScript values as the handlers use them *)

Module Js.

(** A request field is either absent ([undefined]) or a string.  JavaScript
    treats the absent field and the empty string alike in [!x] and [x || d]. *)
Definition truthy (x : option string) : bool :=
  match x with
  | Some s => negb (s =? "")%string
  | None => false
  end.

Definition falsy (x : option string) : bool := negb (truthy x).

(** [x || d] on strings. *)
Definition or_else (x : option string) (d : string) : string :=
  match x with
  | Some s => if (s =? "")%string then d else s
  | None => d
  end.

(** [x || null] on strings; [None] is SQL NULL. *)
Definition or_null (x : option string) : option string :=
  match x with
  | Some s => if (s =? "")%string then None else Some s
  | None => None
  end.

(** [n || d] on a field that holds a number: [0] and the absent field are
    falsy. *)
Definition num_or_else (x : option Z) (d : Z) : Z :=
  match x with
  | Some n => if n =? 0 then d else n
  | None => d
  end.

(** [str.startsWith(p)]. *)
Fixpoint startsWith (p s : string) : bool :=
  match p, s with
  | EmptyString, _ => true
  | String a p', String b s' => Ascii.eqb a b && startsWith p' s'
  | String _ _, EmptyString => false
  end.

(** [str.split(' ')]: the pieces between single spaces. *)
Fixpoint split_space (s : string) : list string :=
  match s with
  | EmptyString => [EmptyString]
  | String c r =>
      if Ascii.eqb c " "%char then EmptyString :: split_space r
      else match split_space r with
           | piece :: rest => String c piece :: rest
           | [] => [String c EmptyString]
           end
  end.

(** White space that [parseInt] skips (the ASCII part of it). *)
Definition is_ws (c : ascii) : bool :=
  let n := nat_of_ascii c in
  (((9 <=? n) && (n <=? 13)) || (n =? 32))%nat.

Fixpoint trim_start (s : string) : string :=
  match s with
  | String c r => if is_ws c then trim_start r else s
  | EmptyString => EmptyString
  end.

Definition digit_value (c : ascii) : option Z :=
  let n := Z.of_nat (nat_of_ascii c) in
  if (48 <=? n) && (n <=? 57) then Some (n - 48)
  else if (97 <=? n) && (n <=? 122) then Some (n - 87)
  else if (65 <=? n) && (n <=? 90) then Some (n - 55)
  else None.

(** The longest prefix of radix-[R] digits, as a number; [None] when the
    prefix is empty. *)
Fixpoint digits (R : Z) (s : string) (acc : option Z) : option Z :=
  match s with
  | String c r =>
      match digit_value c with
      | Some v =>
          if v <? R
          then digits R r (Some (match acc with
                                 | None => v
                                 | Some a => a * R + v
                                 end))
          else acc
      | None => acc
      end
  | EmptyString => acc
  end.

(** [parseInt(s)] with no radix argument; [None] is [NaN].  Numbers are
    exact integers here (no rounding to a double). *)
Definition parseInt (s : string) : option Z :=
  let s0 := trim_start s in
  let '(sign, s1) :=
    match s0 with
    | String "-"%char r => (-1, r)
    | String "+"%char r => (1, r)
    | _ => (1, s0)
    end in
  let '(R, s2) :=
    match s1 with
    | String "0"%char (String "x"%char r) => (16, r)
    | String "0"%char (String "X"%char r) => (16, r)
    | _ => (10, s1)
    end in
  option_map (Z.mul sign) (digits R s2 None).

(** A field of a JSON body of which the handler fixes no type: it can be
    absent, [null], a boolean, a number, a string, or an object or array
    ([Object], whose content plays no part).  Numbers are integers here. *)
Inductive value :=
| Undefined
| Null
| Bool (b : bool)
| Number (n : Z)
| Str (s : string)
| Object.

(** A string field seen as such a value. *)
Definition of_field (x : option string) : value :=
  match x with
  | Some s => Str s
  | None => Undefined
  end.

(** Truthiness: [undefined], [null], [false], [0] and the empty string are
    falsy, everything else is truthy -- the string "0" too. *)
Definition truthy_value (v : value) : bool :=
  match v with
  | Undefined => false
  | Null => false
  | Bool b => b
  | Number n => negb (n =? 0)
  | Str s => negb (s =? "")%string
  | Object => true
  end.

Definition falsy_value (v : value) : bool := negb (truthy_value v).

(** [v || d] *)
Definition or_value (v d : value) : value :=
  if truthy_value v then v else d.

Fixpoint all_ws (s : string) : bool :=
  match s with
  | String c r => is_ws c && all_ws r
  | EmptyString => true
  end.

(** Decimal digits up to the end of the string or up to trailing blanks;
    [None] when there is no digit or anything else follows. *)
Fixpoint decimal (s : string) (acc : option Z) : option Z :=
  match s with
  | String c r =>
      match digit_value c with
      | Some v =>
          if v <? 10
          then decimal r (Some (match acc with
                                | None => v
                                | Some a => a * 10 + v
                                end))
          else None
      | None =>
          if is_ws c && all_ws r then acc else None
      end
  | EmptyString => acc
  end.

(** The integer a store reads from the text of a parameter: blanks, an
    optional sign, decimal digits, blanks.  Any other text is refused. *)
Definition read_integer (s : string) : option Z :=
  match trim_start s with
  | String "-"%char r => option_map Z.opp (decimal r None)
  | String "+"%char r => decimal r None
  | s0 => decimal s0 None
  end.

(** A truthy value as the parameter of an integer column: a number is sent
    as its decimal text and read back, a string is read as it is, and
    anything else ("true", an object) is refused. *)
Definition int_param (v : value) : option Z :=
  match v with
  | Number n => Some n
  | Str s => read_integer s
  | _ => None
  end.

End Js.

(* ================================================================== *)
(** ** The relational store *)

(** [users] *)
Record user_row := {
  u_id : Z;
  u_email : string;
  u_password_hash : string;
  u_display_name : string
}.

(** [profiles]; [None] is SQL NULL. *)
Record profile_row := {
  p_user_id : Z;
  p_bio : option string;
  p_location : option string;
  p_availability : option string
}.

(** [user_subjects] *)
Record user_subject_row := {
  us_user_id : Z;
  us_subject_id : Z;
  us_level : string
}.

(** [subjects] *)
Record subject_row := {
  s_id : Z;
  s_name : string
}.

(** [groups]; [g_created_at] is filled by the store on insertion. *)
Record group_row := {
  g_id : Z;
  g_title : option string;
  g_subject_id : option Z;
  g_description : string;
  g_owner_id : Z;
  g_level : string;
  g_max_members : Z;
  g_created_at : Z
}.

(** [group_members]; [gm_role = None] is a row inserted without a role, for
    which the column default applies. *)
Record member_row := {
  gm_group_id : Z;
  gm_user_id : Z;
  gm_role : option string
}.

(** [group_messages] *)
Record message_row := {
  m_id : Z;
  m_group_id : Z;
  m_user_id : Z;
  m_message : string;
  m_sent_at : Z
}.

(** The whole store: the tables in insertion order, the serial counters that
    hand out ids, and the clock the store stamps new rows with.  The schema
    is not part of the sources: columns hold unbounded integers and strings,
    and a statement does what its text says ([ON CONFLICT] included).  A
    statement the store refuses for a reason of its own is a failing call of
    the fault plan below. *)
Record db := {
  users : list user_row;
  profiles : list profile_row;
  user_subjects : list user_subject_row;
  subjects : list subject_row;
  groups : list group_row;
  group_members : list member_row;
  group_messages : list message_row;
  users_seq : Z;
  groups_seq : Z;
  messages_seq : Z;
  now : Z
}.

Definition empty_db : db :=
  {| users := []; profiles := []; user_subjects := []; subjects := [];
     groups := []; group_members := []; group_messages := [];
     users_seq := 1; groups_seq := 1; messages_seq := 1; now := 0 |}.

Definition set_users (d : db) (l : list user_row) (seq : Z) : db :=
  {| users := l; profiles := profiles d; user_subjects := user_subjects d;
     subjects := subjects d; groups := groups d;
     group_members := group_members d; group_messages := group_messages d;
     users_seq := seq; groups_seq := groups_seq d;
     messages_seq := messages_seq d; now := now d |}.

Definition set_profiles (d : db) (l : list profile_row) : db :=
  {| users := users d; profiles := l; user_subjects := user_subjects d;
     subjects := subjects d; groups := groups d;
     group_members := group_members d; group_messages := group_messages d;
     users_seq := users_seq d; groups_seq := groups_seq d;
     messages_seq := messages_seq d; now := now d |}.

Definition set_groups (d : db) (l : list group_row) (seq : Z) : db :=
  {| users := users d; profiles := profiles d;
     user_subjects := user_subjects d; subjects := subjects d; groups := l;
     group_members := group_members d; group_messages := group_messages d;
     users_seq := users_seq d; groups_seq := seq;
     messages_seq := messages_seq d; now := now d |}.

Definition set_group_members (d : db) (l : list member_row) : db :=
  {| users := users d; profiles := profiles d;
     user_subjects := user_subjects d; subjects := subjects d;
     groups := groups d; group_members := l;
     group_messages := group_messages d;
     users_seq := users_seq d; groups_seq := groups_seq d;
     messages_seq := messages_seq d; now := now d |}.

Definition set_group_messages (d : db) (l : list message_row) (seq : Z) : db :=
  {| users := users d; profiles := profiles d;
     user_subjects := user_subjects d; subjects := subjects d;
     groups := groups d; group_members := group_members d;
     group_messages := l;
     users_seq := users_seq d; groups_seq := groups_seq d;
     messages_seq := seq; now := now d |}.

(** [SELECT COUNT( * ) FROM group_members WHERE group_id = gid] *)
Definition member_count (d : db) (gid : Z) : Z :=
  Z.of_nat (List.length (filter (fun m => gm_group_id m =? gid) (group_members d))).

(** [SELECT * FROM group_members WHERE group_id = gid AND user_id = uid] *)
Definition memberships (d : db) (gid uid : Z) : list member_row :=
  filter (fun m => (gm_group_id m =? gid) && (gm_user_id m =? uid))
         (group_members d).

(** [SELECT max_members FROM groups WHERE id = gid] *)
Definition groups_by_id (d : db) (gid : Z) : list group_row :=
  filter (fun g => g_id g =? gid) (groups d).

(** [SELECT ... FROM users WHERE email = e] *)
Definition users_by_email (d : db) (e : string) : list user_row :=
  filter (fun u => (u_email u =? e)%string) (users d).

(** The profile row the store holds for a user, if any. *)
Definition profile_of (d : db) (uid : Z) : option profile_row :=
  find (fun p => p_user_id p =? uid) (profiles d).

(* ================================================================== *)
(** ** Requests, responses *)

(** The identity claims a token carries; [req.user] after [authMiddleware]. *)
Record claims := {
  c_id : Z;
  c_email : string;
  c_display_name : string
}.

(** Row of the group mode of [/api/match]: [g.*] with the joined names and
    the member count. *)
Record match_group_row := {
  mg_group : group_row;
  mg_subject_name : string;
  mg_owner_name : string;
  mg_member_count : Z
}.

(** Row of the user mode of [/api/match]. *)
Record match_user_row := {
  mu_id : Z;
  mu_display_name : string;
  mu_bio : option string;
  mu_level : string;
  mu_subject_name : string
}.

(** Row of the message listing: [gm.*] with the author's display name. *)
Record message_view := {
  mv_message : message_row;
  mv_display_name : string
}.

Inductive payload :=
| JError (error : string)
| JOk
| JOkGroup (groupId : Z)
| JSession (token : string) (user : claims)
| JGroups (rows : list match_group_row)
| JUsers (rows : list match_user_row)
| JMessages (rows : list message_view).

Record response := {
  status : Z;
  body : payload
}.

(** [res.status(c).json({ error: msg })] *)
Definition error (c : Z) (msg : string) : response :=
  {| status := c; body := JError msg |}.

(** [res.json(p)] *)
Definition json (p : payload) : response := {| status := 200; body := p |}.

(* ================================================================== *)
(** ** The handler monad: storage calls, failures, transactions *)

(** The statements the handlers send. *)
Inductive stmt :=
| SelectUserIdByEmail | InsertUser | SelectUserByEmail
| UpsertProfile
| InsertGroup | InsertOwnerMembership
| Begin | Commit | Rollback
| SelectGroupForUpdate | SelectGroup | CountMembers | SelectMembership
| InsertMembership
| MatchGroups | MatchUsers
| InsertMessage
| UpsertUserSubject | SelectMessages.

Inductive call :=
| PoolQuery (s : stmt)
| PoolConnect
| ClientQuery (s : stmt)
| ClientRelease.

(** What a request sees and leaves behind: the committed store, the working
    copy of an open transaction, the storage calls made so far, and every
    store state the request has published (made visible to others). *)
Record world := {
  committed : db;
  tx : option db;
  calls : list call;
  observed : list db
}.

Definition start (d : db) : world :=
  {| committed := d; tx := None; calls := []; observed := [] |}.

(** [faults k] tells whether the [k]-th storage call of the request throws. *)
Definition faults := nat -> bool.

Definition no_faults : faults := fun _ => false.

Inductive result (A : Type) :=
| Ok (a : A)
| Throw.
Arguments Ok {A} a.
Arguments Throw {A}.

Definition M (A : Type) : Type := faults -> world -> result A * world.

Definition ret {A} (a : A) : M A := fun _ w => (Ok a, w).

(** A rejection raised by a library call. *)
Definition throw {A} : M A := fun _ w => (Throw, w).

Definition bind {A B} (m : M A) (k : A -> M B) : M B :=
  fun f w =>
    match m f w with
    | (Ok a, w') => k a f w'
    | (Throw, w') => (Throw, w')
    end.

Notation "x <- m ;; k" := (bind m (fun x => k))
  (at level 100, m at next level, right associativity).
Notation "m ;;; k" := (bind m (fun _ => k))
  (at level 100, right associativity).

(** [try { body } catch (error) { handler }] *)
Definition try_catch {A} (body handler : M A) : M A :=
  fun f w =>
    match body f w with
    | (Ok a, w') => (Ok a, w')
    | (Throw, w') => handler f w'
    end.

(** [try { body } finally { fin }] *)
Definition finally {A} (body : M A) (fin : M unit) : M A :=
  fun f w =>
    match body f w with
    | (r, w') =>
        match fin f w' with
        | (Ok _, w'') => (r, w'')
        | (Throw, w'') => (Throw, w'')
        end
    end.

Definition log (c : call) (w : world) : world :=
  {| committed := committed w; tx := tx w; calls := calls w ++ [c];
     observed := observed w |}.

Definition publish (d : db) (w : world) : world :=
  {| committed := d; tx := None; calls := calls w;
     observed := observed w ++ [d] |}.

Definition set_tx (t : option db) (w : world) : world :=
  {| committed := committed w; tx := t; calls := calls w;
     observed := observed w |}.

(** One storage call: it is logged, throws when the fault plan says so, and
    otherwise runs [k]. *)
Definition storage_call {A} (c : call) (k : world -> result A * world) : M A :=
  fun f w =>
    let n := List.length (calls w) in
    let w1 := log c w in
    if f n then (Throw, w1) else k w1.

(** [pool.query] of a statement that only reads. *)
Definition pool_read {A} (s : stmt) (q : db -> result A) : M A :=
  storage_call (PoolQuery s) (fun w => (q (committed w), w)).

(** [pool.query] of a statement that writes: it commits on its own. *)
Definition pool_write {A} (s : stmt) (q : db -> result (A * db)) : M A :=
  storage_call (PoolQuery s) (fun w =>
    match q (committed w) with
    | Ok (a, d') => (Ok a, publish d' w)
    | Throw => (Throw, w)
    end).

(** [pool.connect()] *)
Definition pool_connect : M unit :=
  storage_call PoolConnect (fun w => (Ok tt, w)).

(** [client.release()] does not wait and does not throw. *)
Definition client_release : M unit :=
  fun _ w => (Ok tt, log ClientRelease w).

(** The store a client statement works on. *)
Definition client_view (w : world) : db :=
  match tx w with
  | Some t => t
  | None => committed w
  end.

Definition client_begin : M unit :=
  storage_call (ClientQuery Begin) (fun w =>
    (Ok tt, set_tx (Some (client_view w)) w)).

Definition client_commit : M unit :=
  storage_call (ClientQuery Commit) (fun w =>
    match tx w with
    | Some t => (Ok tt, publish t w)
    | None => (Ok tt, w)
    end).

Definition client_rollback : M unit :=
  storage_call (ClientQuery Rollback) (fun w => (Ok tt, set_tx None w)).

Definition client_read {A} (s : stmt) (q : db -> result A) : M A :=
  storage_call (ClientQuery s) (fun w => (q (client_view w), w)).

Definition client_write {A} (s : stmt) (q : db -> result (A * db)) : M A :=
  storage_call (ClientQuery s) (fun w =>
    match q (client_view w) with
    | Ok (a, d') =>
        match tx w with
        | Some _ => (Ok a, set_tx (Some d') w)
        | None => (Ok a, publish d' w)
        end
    | Throw => (Throw, w)
    end).

(** A request against store [d] under fault plan [f]; [Throw] is a rejection
    nobody handles, so no response is written. *)
Definition run {A} (m : M A) (f : faults) (d : db) : result A * world :=
  m f (start d).

Definition response_of {A} (r : result A * world) : result A := fst r.
Definition db_after {A} (r : result A * world) : db := committed (snd r).
Definition published {A} (r : result A * world) : list db := observed (snd r).
Definition calls_of {A} (r : result A * world) : list call := calls (snd r).

(* ================================================================== *)
(** ** Hashing and tokens *)

(** [bcrypt] and [jsonwebtoken] are libraries; the handlers depend only on
    their interface. *)
Class Crypto := {
  bcrypt_hash : string -> Z -> string;
  bcrypt_compare : string -> string -> bool;
  jwt_sign : claims -> string;
  jwt_verify : string -> option claims
}.

(* ================================================================== *)
(** ** The handlers of [server.js] *)

Record register_body := {
  rb_email : option string;
  rb_password : option string;
  rb_display_name : option string
}.

Record login_body := {
  lb_email : option string;
  lb_password : Js.value
}.

Record profile_body := {
  pb_bio : option string;
  pb_location : option string;
  pb_availability : option string
}.

Record group_body := {
  gb_title : option string;
  gb_subject_id : option Z;
  gb_description : option string;
  gb_level : option string;
  gb_max_members : Js.value
}.

Record match_query := {
  mq_subject_id : option Z;
  mq_level : option string;
  mq_type : option string
}.

Definition claims_of_user (u : user_row) : claims :=
  {| c_id := u_id u; c_email := u_email u;
     c_display_name := u_display_name u |}.

Section Authentication.

Context `{Crypto}.

(** [makeToken(user)] *)
Definition makeToken (user : claims) : string := jwt_sign user.

(** [authMiddleware(req, res, next)]; [next] is the route's handler. *)
Definition authMiddleware (authHeader : option string)
    (next : claims -> M response) : M response :=
  if Js.falsy authHeader
     || negb (Js.startsWith "Bearer " (Js.or_else authHeader ""))
  then ret (error 401 "No token provided or malformed header")
  else
    let token := nth 1 (Js.split_space (Js.or_else authHeader "")) "" in
    match jwt_verify token with
    | Some data => next data
    | None => ret (error 401 "Invalid token")
    end.

(** [INSERT INTO users (email, password_hash, display_name) ...
     RETURNING id, email, display_name] *)
Definition insert_user (email hash display_name : string) (d : db)
    : result (claims * db) :=
  let row := {| u_id := users_seq d; u_email := email;
                u_password_hash := hash;
                u_display_name := display_name |} in
  Ok (claims_of_user row, set_users d (users d ++ [row]) (users_seq d + 1)).

(** [app.post('/api/register', ...)] *)
Definition register (b : register_body) : M response :=
  if Js.falsy (rb_email b) || Js.falsy (rb_password b)
     || Js.falsy (rb_display_name b)
  then ret (error 400 "Missing required fields")
  else
    let email := Js.or_else (rb_email b) "" in
    let password := Js.or_else (rb_password b) "" in
    let display_name := Js.or_else (rb_display_name b) "" in
    try_catch
      (existResult <- pool_read SelectUserIdByEmail
                        (fun d => Ok (users_by_email d email)) ;;
       if (0 <? List.length existResult)%nat
       then ret (error 409 "Email already in use")
       else
         let hash := bcrypt_hash password 10 in
         user <- pool_write InsertUser (insert_user email hash display_name) ;;
         let token := makeToken user in
         ret {| status := 201; body := JSession token user |})
      (ret (error 500 "Internal server error")).

(** [await bcrypt.compare(password, hash)]: the library compares strings
    and rejects a password that is none. *)
Definition compare_password (password : Js.value) (hash : string) : M bool :=
  match password with
  | Js.Str s => ret (bcrypt_compare s hash)
  | _ => throw
  end.

(** [app.post('/api/login', ...)]; the password is whatever the JSON body
    holds. *)
Definition login (b : login_body) : M response :=
  if Js.falsy (lb_email b) || Js.falsy_value (lb_password b)
  then ret (error 400 "Email and password are required")
  else
    let email := Js.or_else (lb_email b) "" in
    let password := lb_password b in
    try_catch
      (rows <- pool_read SelectUserByEmail
                 (fun d => Ok (users_by_email d email)) ;;
       match rows with
       | [] => ret (error 401 "Invalid credentials")
       | user :: _ =>
           isMatch <- compare_password password (u_password_hash user) ;;
           if negb isMatch
           then ret (error 401 "Invalid credentials")
           else
             let token := makeToken (claims_of_user user) in
             ret (json (JSession token (claims_of_user user)))
       end)
      (ret (error 500 "Internal server error")).

End Authentication.

(** [INSERT INTO profiles ... ON CONFLICT (user_id) DO UPDATE SET bio =
     EXCLUDED.bio, location = EXCLUDED.location, availability =
     EXCLUDED.availability] *)
Definition upsert_profile (row : profile_row) (d : db) : result (unit * db) :=
  let conflict p := p_user_id p =? p_user_id row in
  if existsb conflict (profiles d)
  then Ok (tt, set_profiles d
                 (map (fun p => if conflict p then row else p) (profiles d)))
  else Ok (tt, set_profiles d (profiles d ++ [row])).

(** [app.post('/api/profile', authMiddleware, ...)] *)
Definition upsertProfile (user : claims) (b : profile_body) : M response :=
  try_catch
    (pool_write UpsertProfile
       (upsert_profile {| p_user_id := c_id user;
                          p_bio := Js.or_null (pb_bio b);
                          p_location := Js.or_null (pb_location b);
                          p_availability := Js.or_null (pb_availability b) |}) ;;;
     ret (json JOk))
    (ret (error 500 "Failed to update profile")).

(** [INSERT INTO groups (title, subject_id, description, owner_id, level,
     max_members) VALUES (...) RETURNING id] *)
Definition insert_group (title : option string) (subject_id : option Z)
    (description : string) (owner_id : Z) (level : string) (max_members : Z)
    (d : db) : result (Z * db) :=
  let row := {| g_id := groups_seq d; g_title := title;
                g_subject_id := subject_id; g_description := description;
                g_owner_id := owner_id; g_level := level;
                g_max_members := max_members; g_created_at := now d |} in
  Ok (g_id row, set_groups d (groups d ++ [row]) (groups_seq d + 1)).

(** [INSERT INTO group_members (group_id, user_id[, role]) VALUES (...)] *)
Definition insert_member (gid uid : Z) (role : option string) (d : db)
    : result (unit * db) :=
  Ok (tt, set_group_members d
            (group_members d
             ++ [{| gm_group_id := gid; gm_user_id := uid; gm_role := role |}])).

(** The same statement with the capacity as the handler passes it: the
    store reads an integer from it, or refuses the statement. *)
Definition insert_group_values (title : option string) (subject_id : option Z)
    (description : string) (owner_id : Z) (level : string)
    (max_members : Js.value) (d : db) : result (Z * db) :=
  match Js.int_param max_members with
  | Some capacity =>
      insert_group title subject_id description owner_id level capacity d
  | None => Throw
  end.

(** The capacity a request asks the store to keep: [max_members || 10] as
    the store reads it, [None] when the store cannot read it. *)
Definition capacity_of (b : group_body) : option Z :=
  Js.int_param (Js.or_value (gb_max_members b) (Js.Number 10)).

(** [app.post('/api/groups', authMiddleware, ...)]; [max_members] is
    whatever the JSON body holds. *)
Definition createGroup (user : claims) (b : group_body) : M response :=
  try_catch
    (groupId <- pool_write InsertGroup
                  (insert_group_values (gb_title b) (gb_subject_id b)
                     (Js.or_else (gb_description b) "") (c_id user)
                     (Js.or_else (gb_level b) "mixed")
                     (Js.or_value (gb_max_members b) (Js.Number 10))) ;;
     pool_write InsertOwnerMembership
       (insert_member groupId (c_id user) (Some "owner")) ;;;
     ret {| status := 201; body := JOkGroup groupId |})
    (ret (error 500 "Failed to create group")).

(** [app.post('/api/groups/:id/join', authMiddleware, ...)] *)
Definition join (user : claims) (id : string) : M response :=
  match Js.parseInt id with
  | None => ret (error 400 "Invalid group ID")
  | Some groupId =>
      pool_connect ;;;
      finally
        (try_catch
           (client_begin ;;;
            groupResult <- client_read SelectGroupForUpdate
                             (fun d => Ok (groups_by_id d groupId)) ;;
            match groupResult with
            | [] =>
                client_rollback ;;;
                ret (error 404 "Group not found")
            | group :: _ =>
                memberCount <- client_read CountMembers
                                 (fun d => Ok (member_count d groupId)) ;;
                if memberCount >=? g_max_members group
                then
                  client_rollback ;;;
                  ret (error 400 "Group is full")
                else
                  existsResult <- client_read SelectMembership
                                    (fun d => Ok (memberships d groupId
                                                    (c_id user))) ;;
                  if (0 <? List.length existsResult)%nat
                  then
                    client_rollback ;;;
                    ret (error 400 "Already a member")
                  else
                    client_write InsertMembership
                      (insert_member groupId (c_id user) None) ;;;
                    client_commit ;;;
                    ret (json JOk)
            end)
           (client_rollback ;;;
            ret (error 500 "Failed to join group")))
        client_release
  end.

(** [ORDER BY g.created_at DESC]: insertion into a list that is already in
    that order, after the rows that are at least as new. *)
Fixpoint insert_newest_first (r : match_group_row) (l : list match_group_row)
    : list match_group_row :=
  match l with
  | [] => [r]
  | x :: l' =>
      if g_created_at (mg_group r) <=? g_created_at (mg_group x)
      then x :: insert_newest_first r l'
      else r :: l
  end.

Definition order_newest_first (l : list match_group_row)
    : list match_group_row :=
  fold_right insert_newest_first [] l.

(** The [WHERE] clause of the group mode: [g.subject_id = $1], and with a
    level [AND (g.level = $2 OR g.level = 'mixed')].  A comparison with NULL
    selects nothing. *)
Definition group_matches (subject_id : option Z) (level : option string)
    (g : group_row) : bool :=
  match g_subject_id g, subject_id with
  | Some a, Some b => a =? b
  | _, _ => false
  end
  && (if Js.truthy level
      then (g_level g =? Js.or_else level "")%string
           || (g_level g =? "mixed")%string
      else true).

(** [FROM groups g JOIN subjects s ON s.id = g.subject_id JOIN users u ON
     u.id = g.owner_id WHERE ...], each row with its
     [(SELECT COUNT( * ) FROM group_members gm WHERE gm.group_id = g.id)]. *)
Definition match_group_rows (subject_id : option Z) (level : option string)
    (d : db) : list match_group_row :=
  flat_map (fun g =>
    flat_map (fun s =>
      flat_map (fun u =>
        if group_matches subject_id level g
        then [{| mg_group := g; mg_subject_name := s_name s;
                 mg_owner_name := u_display_name u;
                 mg_member_count := member_count d (g_id g) |}]
        else [])
        (filter (fun u => u_id u =? g_owner_id g) (users d)))
      (filter (fun s => match g_subject_id g with
                        | Some a => s_id s =? a
                        | None => false
                        end) (subjects d)))
    (groups d).

(** The group mode of [/api/match]: the joined rows, [ORDER BY g.created_at
    DESC LIMIT 50]. *)
Definition select_match_groups (subject_id : option Z) (level : option string)
    (d : db) : list match_group_row :=
  firstn 50 (order_newest_first (match_group_rows subject_id level d)).

(** The user mode of [/api/match]: [user_subjects] joined with [users] and
    [subjects], left-joined with [profiles], cut at 50 rows. *)
Definition select_match_users (subject_id : option Z) (level : option string)
    (d : db) : list match_user_row :=
  firstn 50
    (flat_map (fun us =>
       flat_map (fun u =>
         flat_map (fun p =>
           flat_map (fun s =>
             if match subject_id with
                | Some a => us_subject_id us =? a
                | None => false
                end
                && (if Js.truthy level
                    then (us_level us =? Js.or_else level "")%string
                    else true)
             then [{| mu_id := u_id u; mu_display_name := u_display_name u;
                      mu_bio := p; mu_level := us_level us;
                      mu_subject_name := s_name s |}]
             else [])
             (filter (fun s => s_id s =? us_subject_id us) (subjects d)))
           (match filter (fun p => p_user_id p =? u_id u) (profiles d) with
            | [] => [None]
            | ps => map p_bio ps
            end))
         (filter (fun u => u_id u =? us_user_id us) (users d)))
       (user_subjects d)).

(** [app.get('/api/match', authMiddleware, ...)] *)
Definition findMatches (user : claims) (q : match_query) : M response :=
  try_catch
    (match mq_type q with
     | Some "group" =>
         rows <- pool_read MatchGroups
                   (fun d => Ok (select_match_groups (mq_subject_id q)
                                   (mq_level q) d)) ;;
         ret (json (JGroups rows))
     | _ =>
         rows <- pool_read MatchUsers
                   (fun d => Ok (select_match_users (mq_subject_id q)
                                   (mq_level q) d)) ;;
         ret (json (JUsers rows))
     end)
    (ret (error 500 "Failed to fetch matches")).

(** [INSERT INTO group_messages (group_id, user_id, message) VALUES (...)];
    a group id that is [NaN] is no integer and the statement fails. *)
Definition insert_message (groupId : option Z) (uid : Z) (message : string)
    (d : db) : result (unit * db) :=
  match groupId with
  | None => Throw
  | Some gid =>
      Ok (tt, set_group_messages d
                (group_messages d
                 ++ [{| m_id := messages_seq d; m_group_id := gid;
                        m_user_id := uid; m_message := message;
                        m_sent_at := now d |}])
                (messages_seq d + 1))
  end.

(** [app.post('/api/groups/:id/messages', authMiddleware, ...)] *)
Definition postMessage (user : claims) (id : string) (message : option string)
    : M response :=
  let groupId := Js.parseInt id in
  if Js.falsy message
  then ret (error 400 "Empty message")
  else
    try_catch
      (pool_write InsertMessage
         (insert_message groupId (c_id user) (Js.or_else message "")) ;;;
       ret (json JOk))
      (ret (error 500 "Failed to post message")).

(* ================================================================== *)
(** ** An earlier variant of the join handler

    The repository keeps older copies of [server.js].  Their join handler
    works on the pool without a transaction and asks the two admission
    questions in the other order. *)

Module Legacy.

(** [app.post('/api/groups/:id/join', ...)] of the variant with plain pool
    queries; [groupId] is [+req.params.id], [None] when that is [NaN]. *)
Definition join (user : claims) (groupId : option Z) : M response :=
  try_catch
    (groupResult <- pool_read SelectGroup
                      (fun d => match groupId with
                                | Some gid => Ok (groups_by_id d gid)
                                | None => Throw
                                end) ;;
     match groupResult, groupId with
     | group :: _, Some gid =>
         memberCount <- pool_read CountMembers
                          (fun d => Ok (member_count d gid)) ;;
         existsResult <- pool_read SelectMembership
                           (fun d => Ok (memberships d gid (c_id user))) ;;
         if (0 <? List.length existsResult)%nat
         then ret (error 400 "Already a member")
         else if memberCount >=? g_max_members group
         then ret (error 400 "Group full")
         else
           pool_write InsertMembership
             (insert_member gid (c_id user) None) ;;;
           ret (json JOk)
     | _, _ => ret (error 404 "Group not found")
     end)
    (ret (error 500 "Failed to join group")).

End Legacy.

(* ================================================================== *)
(** ** Sequences of group operations *)

Inductive op :=
| CreateGroup (user : claims) (b : group_body) (f : faults)
| Join (user : claims) (id : string) (f : faults).

Definition exec (o : op) (d : db) : result response * world :=
  match o with
  | CreateGroup user b f => run (createGroup user b) f d
  | Join user id f => run (join user id) f d
  end.

(** Every store state that becomes visible while the operations run one
    after the other, in order. *)
Fixpoint trace (d : db) (ops : list op) : list db :=
  match ops with
  | [] => []
  | o :: rest => published (exec o d) ++ trace (db_after (exec o d)) rest
  end.

(** The capacity bound of the data model. *)
Definition capacity_ok (d : db) : Prop :=
  forall g, In g (groups d) -> member_count d (g_id g) <= g_max_members g.

(** Keys as the serial counter hands them out: group ids are distinct and
    below the counter, and no membership row names an id not yet issued. *)
Record well_keyed (d : db) : Prop := {
  group_ids_distinct : NoDup (map g_id (groups d));
  group_ids_issued : forall g, In g (groups d) -> g_id g < groups_seq d;
  member_ids_issued :
    forall m, In m (group_members d) -> gm_group_id m < groups_seq d
}.

Definition Inv (d : db) : Prop := well_keyed d /\ capacity_ok d.

(** The capacity a [createGroup] request asks the store to keep is an
    integer of at least 1. *)
Definition positive_capacity (o : op) : Prop :=
  match o with
  | CreateGroup _ b _ => exists cap, capacity_of b = Some cap /\ 1 <= cap
  | Join _ _ _ => True
  end.

(** The store after a membership row for [(gid, uid)] was added by join. *)
Definition joined (d : db) (gid uid : Z) : db :=
  set_group_members d
    (group_members d
     ++ [{| gm_group_id := gid; gm_user_id := uid; gm_role := None |}]).

(** The store after the first statement of [createGroup], which stored
    capacity [cap]. *)
Definition with_group (d : db) (user : claims) (b : group_body) (cap : Z)
    : db :=
  set_groups d
    (groups d ++ [{| g_id := groups_seq d; g_title := gb_title b;
                     g_subject_id := gb_subject_id b;
                     g_description := Js.or_else (gb_description b) "";
                     g_owner_id := c_id user;
                     g_level := Js.or_else (gb_level b) "mixed";
                     g_max_members := cap;
                     g_created_at := now d |}])
    (groups_seq d + 1).

(** The store after both statements of [createGroup]. *)
Definition with_owner (d : db) (user : claims) (b : group_body) (cap : Z)
    : db :=
  set_group_members (with_group d user b cap)
    (group_members d
     ++ [{| gm_group_id := groups_seq d; gm_user_id := c_id user;
            gm_role := Some "owner" |}]).

(* ================================================================== *)
(** ** What a group search is asked for *)

(** The groups a search for subject [s] wants, in the words of the
    specification: the subject is [s], and when a level is asked for, the
    level of the group is that level or "mixed". *)
Definition wanted (s : Z) (level : option string) (g : group_row) : bool :=
  match g_subject_id g with
  | Some a => a =? s
  | None => false
  end
  && match level with
     | Some l => (g_level g =? l)%string || (g_level g =? "mixed")%string
     | None => true
     end.

(** Newest first. *)
Definition newer_or_equal (a b : match_group_row) : Prop :=
  g_created_at (mg_group b) <= g_created_at (mg_group a).

(** Every group refers to one stored subject and one stored owner. *)
Record references_ok (d : db) : Prop := {
  subject_ids_distinct : NoDup (map s_id (subjects d));
  user_ids_distinct : NoDup (map u_id (users d));
  group_subject_stored :
    forall g a, In g (groups d) -> g_subject_id g = Some a ->
                In a (map s_id (subjects d));
  group_owner_stored :
    forall g, In g (groups d) -> In (g_owner_id g) (map u_id (users d))
}.

(* ================================================================== *)
(** ** Sample data *)

Module Sample.

Definition alice : claims :=
  {| c_id := 1; c_email := "alice@example.org"; c_display_name := "Alice" |}.

Definition bob : claims :=
  {| c_id := 2; c_email := "bob@example.org"; c_display_name := "Bob" |}.

(** A group for one member only. *)
Definition solo : group_body :=
  {| gb_title := Some "Algebra"; gb_subject_id := Some 3;
     gb_description := None; gb_level := None;
     gb_max_members := Js.Number 1 |}.

Definition pair : group_body :=
  {| gb_title := Some "Logic"; gb_subject_id := Some 3;
     gb_description := None; gb_level := Some "advanced";
     gb_max_members := Js.Number 2 |}.

Definition negative : group_body :=
  {| gb_title := Some "Void"; gb_subject_id := Some 3;
     gb_description := None; gb_level := None;
     gb_max_members := Js.Number (-1) |}.

(** The second storage call of the request fails. *)
Definition second_call_fails : faults := fun k => Nat.eqb k 1.

(** Alice owns group 1, which is full with her in it. *)
Definition solo_db : db :=
  db_after (run (createGroup alice solo) no_faults empty_db).

Definition alice_row : user_row :=
  {| u_id := 1; u_email := "alice@example.org"; u_password_hash := "h:secret";
     u_display_name := "Alice" |}.

Definition users_db : db := set_users empty_db [alice_row] 2.

(** A stand-in for the libraries: the hash is the password behind a tag,
    the token is the e-mail address. *)
Definition toy_crypto : Crypto :=
  {| bcrypt_hash := fun p _ => "h:" ++ p;
     bcrypt_compare := fun p h => (("h:" ++ p) =? h)%string;
     jwt_sign := fun c => c_email c;
     jwt_verify := fun t =>
       if (t =? "alice@example.org")%string then Some alice else None |}.

(** Subject 3 with three groups, created at times 10, 20 and 30. *)
Definition match_db : db :=
  {| users := [alice_row]; profiles := []; user_subjects := [];
     subjects := [{| s_id := 3; s_name := "Mathematics" |}];
     groups :=
       [{| g_id := 1; g_title := Some "Algebra"; g_subject_id := Some 3;
           g_description := ""; g_owner_id := 1; g_level := "advanced";
           g_max_members := 10; g_created_at := 10 |};
        {| g_id := 2; g_title := Some "Basics"; g_subject_id := Some 3;
           g_description := ""; g_owner_id := 1; g_level := "beginner";
           g_max_members := 10; g_created_at := 20 |};
        {| g_id := 3; g_title := Some "Open"; g_subject_id := Some 3;
           g_description := ""; g_owner_id := 1; g_level := "mixed";
           g_max_members := 10; g_created_at := 30 |}];
     group_members :=
       [{| gm_group_id := 1; gm_user_id := 1; gm_role := Some "owner" |};
        {| gm_group_id := 3; gm_user_id := 1; gm_role := Some "owner" |};
        {| gm_group_id := 3; gm_user_id := 2; gm_role := None |}];
     group_messages := [];
     users_seq := 2; groups_seq := 4; messages_seq := 1; now := 40 |}.

Definition advanced_groups : match_query :=
  {| mq_subject_id := Some 3; mq_level := Some "advanced";
     mq_type := Some "group" |}.

End Sample.


(* ================================================================== *)
(** ** The remaining handlers of [server.js] *)

Definition set_user_subjects (d : db) (l : list user_subject_row) : db :=
  {| users := users d; profiles := profiles d; user_subjects := l;
     subjects := subjects d; groups := groups d;
     group_members := group_members d; group_messages := group_messages d;
     users_seq := users_seq d; groups_seq := groups_seq d;
     messages_seq := messages_seq d; now := now d |}.

Record subject_body := {
  sb_subject_id : option Z;
  sb_level : option string
}.

(** [!n] on a numeric field: the absent field and [0] are falsy. *)
Definition falsy_num (x : option Z) : bool :=
  match x with
  | Some n => n =? 0
  | None => true
  end.

(** [INSERT INTO user_subjects (user_id, subject_id, level) VALUES (...)
     ON CONFLICT (user_id, subject_id) DO UPDATE SET level = EXCLUDED.level] *)
Definition upsert_user_subject (uid sid : Z) (level : string) (d : db)
    : result (unit * db) :=
  let conflict r := (us_user_id r =? uid) && (us_subject_id r =? sid) in
  if existsb conflict (user_subjects d)
  then Ok (tt, set_user_subjects d
                 (map (fun r => if conflict r
                                then {| us_user_id := us_user_id r;
                                        us_subject_id := us_subject_id r;
                                        us_level := level |}
                                else r)
                      (user_subjects d)))
  else Ok (tt, set_user_subjects d
                 (user_subjects d
                  ++ [{| us_user_id := uid; us_subject_id := sid;
                         us_level := level |}])).

(** [app.post('/api/user/subject', authMiddleware, ...)] *)
Definition upsertUserSubject (user : claims) (b : subject_body) : M response :=
  if falsy_num (sb_subject_id b) || Js.falsy (sb_level b)
  then ret (error 400 "Missing fields")
  else
    try_catch
      (pool_write UpsertUserSubject
         (upsert_user_subject (c_id user) (Js.num_or_else (sb_subject_id b) 0)
            (Js.or_else (sb_level b) "")) ;;;
       ret (json JOk))
      (ret (error 500 "Failed to update user subject")).

(** The level a user has stored for a subject, if any. *)
Definition level_of (d : db) (uid sid : Z) : option string :=
  option_map us_level
    (find (fun r => (us_user_id r =? uid) && (us_subject_id r =? sid))
          (user_subjects d)).

(** [ORDER BY gm.sent_at ASC]: insertion into a list that is already in that
    order, after the rows that are at least as old. *)
Fixpoint insert_oldest_first (r : message_view) (l : list message_view)
    : list message_view :=
  match l with
  | [] => [r]
  | x :: l' =>
      if m_sent_at (mv_message x) <=? m_sent_at (mv_message r)
      then x :: insert_oldest_first r l'
      else r :: l
  end.

Definition order_oldest_first (l : list message_view) : list message_view :=
  fold_right insert_oldest_first [] l.

(** [FROM group_messages gm JOIN users u ON u.id = gm.user_id
     WHERE gm.group_id = gid] *)
Definition message_rows (gid : Z) (d : db) : list message_view :=
  flat_map (fun m =>
    flat_map (fun u =>
      if m_group_id m =? gid
      then [{| mv_message := m; mv_display_name := u_display_name u |}]
      else [])
      (filter (fun u => u_id u =? m_user_id m) (users d)))
    (group_messages d).

(** The message listing, [ORDER BY gm.sent_at ASC LIMIT 200]; a group id
    that is [NaN] is no integer and the statement fails. *)
Definition select_messages (groupId : option Z) (d : db)
    : result (list message_view) :=
  match groupId with
  | None => Throw
  | Some gid => Ok (firstn 200 (order_oldest_first (message_rows gid d)))
  end.

(** [app.get('/api/groups/:id/messages', authMiddleware, ...)] *)
Definition listMessages (user : claims) (id : string) : M response :=
  let groupId := Js.parseInt id in
  try_catch
    (rows <- pool_read SelectMessages (select_messages groupId) ;;
     ret (json (JMessages rows)))
    (ret (error 500 "Failed to fetch messages")).

(** Oldest first. *)
Definition older_or_equal (a b : message_view) : Prop :=
  m_sent_at (mv_message a) <= m_sent_at (mv_message b).

(* ================================================================== *)
(** ** Keys *)

(** Users as registration leaves them: e-mail addresses are distinct, ids
    are distinct and below the serial counter. *)
Record users_keyed (d : db) : Prop := {
  emails_distinct : NoDup (map u_email (users d));
  user_ids_issued : forall u, In u (users d) -> u_id u < users_seq d;
  user_ids_distinct' : NoDup (map u_id (users d))
}.

Definition member_key (m : member_row) : Z * Z :=
  (gm_group_id m, gm_user_id m).

(** Nobody is in a group twice. *)
Definition members_distinct (d : db) : Prop :=
  NoDup (map member_key (group_members d)).

Definition subject_key (r : user_subject_row) : Z * Z :=
  (us_user_id r, us_subject_id r).

(** Several users join one group, one request after the other, with no
    storage failure: the answers in order, and the store at the end. *)
Fixpoint join_each (users : list claims) (id : string) (d : db)
    : list (result response) * db :=
  match users with
  | [] => ([], d)
  | u :: rest =>
      let r := run (join u id) no_faults d in
      let '(answers, d') := join_each rest id (db_after r) in
      (response_of r :: answers, d')
  end.

(** The bio a user row can carry: that of a stored profile of the user, or
    NULL when the user has none. *)
Definition bio_of (d : db) (uid : Z) (bio : option string) : Prop :=
  (exists p, In p (profiles d) /\ p_user_id p = uid /\ bio = p_bio p)
  \/ ((forall p, In p (profiles d) -> p_user_id p <> uid) /\ bio = None).

(** The answer is not the 201 of a successful registration. *)
Definition status_of_register_is_not_201 (r : result response) : Prop :=
  match r with
  | Ok {| status := 201; body := JSession _ _ |} => False
  | _ => True
  end.

Definition is_release (c : call) : bool :=
  match c with
  | ClientRelease => true
  | _ => false
  end.

Definition is_connect (c : call) : bool :=
  match c with
  | PoolConnect => true
  | _ => false
  end.

(** Message ids as the serial counter hands them out. *)
Record messages_keyed (d : db) : Prop := {
  message_ids_distinct : NoDup (map m_id (group_messages d));
  message_ids_issued :
    forall m, In m (group_messages d) -> m_id m < messages_seq d
}.

(** Further sample data. *)
Module Fixture.

Definition carol : claims :=
  {| c_id := 3; c_email := "carol@example.org"; c_display_name := "Carol" |}.

Definition bob_row : user_row :=
  {| u_id := 2; u_email := "bob@example.org"; u_password_hash := "h:hunter2";
     u_display_name := "Bob" |}.

(** Alice and Bob are registered; group 1 of Alice has two seats. *)
Definition club_db : db :=
  db_after
    (run (createGroup Sample.alice Sample.pair) no_faults
       (set_users empty_db [Sample.alice_row; bob_row] 3)).

Definition new_user : register_body :=
  {| rb_email := Some "dave@example.org"; rb_password := Some "pw";
     rb_display_name := Some "Dave" |}.

Definition algebra_advanced : subject_body :=
  {| sb_subject_id := Some 3; sb_level := Some "advanced" |}.

Definition find_users : match_query :=
  {| mq_subject_id := Some 3; mq_level := None; mq_type := None |}.

(** Alice (with a profile) and Bob (without) both study subject 3. *)
Definition people_db : db :=
  {| users := [Sample.alice_row; bob_row];
     profiles := [{| p_user_id := 1; p_bio := Some "Student";
                     p_location := None; p_availability := None |}];
     user_subjects :=
       [{| us_user_id := 1; us_subject_id := 3; us_level := "advanced" |};
        {| us_user_id := 2; us_subject_id := 3; us_level := "beginner" |}];
     subjects := [{| s_id := 3; s_name := "Mathematics" |}];
     groups := []; group_members := []; group_messages := [];
     users_seq := 3; groups_seq := 1; messages_seq := 1; now := 5 |}.

(** A capacity given as the text "0". *)
Definition zero_text : group_body :=
  {| gb_title := Some "Nil"; gb_subject_id := Some 3;
     gb_description := None; gb_level := None;
     gb_max_members := Js.Str "0" |}.

(** A group for subject 99, of which the store holds no row. *)
Definition astrology : group_body :=
  {| gb_title := Some "Stars"; gb_subject_id := Some 99;
     gb_description := None; gb_level := None;
     gb_max_members := Js.Undefined |}.

Definition astrology_groups : match_query :=
  {| mq_subject_id := Some 99; mq_level := None; mq_type := Some "group" |}.

(** Alice is registered and has created the group for subject 99. *)
Definition astrology_db : db :=
  db_after (run (createGroup Sample.alice astrology) no_faults Sample.users_db).

(** Two logins with the number 1 as password: one for Alice's address, one
    for an address nobody has. *)
Definition number_for_alice : login_body :=
  {| lb_email := Some "alice@example.org"; lb_password := Js.Number 1 |}.

Definition number_for_nobody : login_body :=
  {| lb_email := Some "nobody@example.org"; lb_password := Js.Number 1 |}.

Definition dave : claims :=
  {| c_id := 2; c_email := "dave@example.org"; c_display_name := "Dave" |}.

(** A stand-in for the libraries that knows Dave's token. *)
Definition dave_crypto : Crypto :=
  {| bcrypt_hash := fun p _ => "h:" ++ p;
     bcrypt_compare := fun p h => (("h:" ++ p) =? h)%string;
     jwt_sign := fun c => c_email c;
     jwt_verify := fun t =>
       if (t =? "dave@example.org")%string then Some dave else None |}.

End Fixture.
(* ================================================================== *)
(** ** Running the monad *)

Ltac unfold_monad :=
  unfold run, response_of, db_after, published, calls_of,
    bind, ret, throw, try_catch, finally,
    pool_read, pool_write, pool_connect, client_release, client_begin,
    client_commit, client_rollback, client_read, client_write,
    storage_call, client_view, log, publish, set_tx, start in *.

Ltac simpl_world :=
  cbn [fst snd committed tx calls observed List.length app].

(** Case split on whether the next storage call fails. *)
Ltac step_fault f :=
  match goal with
  | |- context [f ?k] => destruct (f k) eqn:?; simpl_world
  end.

Ltac no_change := left; cbn; repeat split; discriminate.

(** Join either leaves the store alone and does not answer [{ ok: true }],
    or it found the group, counted fewer members than the capacity, found no
    membership of the caller, and published exactly one new store: the old
    one with the caller's row added. *)
Lemma join_outcome (user : claims) (id : string) (f : faults) (d : db) :
  (db_after (run (join user id) f d) = d
   /\ published (run (join user id) f d) = []
   /\ response_of (run (join user id) f d) <> Ok (json JOk))
  \/ (exists gid g rest,
        Js.parseInt id = Some gid
        /\ groups_by_id d gid = g :: rest
        /\ member_count d gid < g_max_members g
        /\ memberships d gid (c_id user) = []
        /\ db_after (run (join user id) f d) = joined d gid (c_id user)
        /\ published (run (join user id) f d) = [joined d gid (c_id user)]
        /\ response_of (run (join user id) f d) = Ok (json JOk)).
Proof.
  unfold join.
  destruct (Js.parseInt id) as [gid|] eqn:Hid; [|no_change].
  unfold_monad; simpl_world.
  step_fault f; [no_change|].
  step_fault f; [step_fault f; no_change|].
  step_fault f; [step_fault f; no_change|].
  destruct (groups_by_id d gid) as [|g rest] eqn:Hg.
  { cbn. step_fault f; [step_fault f|]; no_change. }
  cbn. step_fault f; [step_fault f; no_change|].
  destruct (member_count d gid >=? g_max_members g) eqn:Hfull.
  { cbn. step_fault f; [step_fault f|]; no_change. }
  cbn. step_fault f; [step_fault f; no_change|].
  destruct (memberships d gid (c_id user)) as [|m ms] eqn:Hm.
  2:{ cbn. step_fault f; [step_fault f|]; no_change. }
  cbn. step_fault f; [step_fault f; no_change|].
  step_fault f; [step_fault f; no_change|].
  right. exists gid, g, rest. cbn. repeat split; auto. lia.
Qed.

(** The ways [createGroup] can end: the first statement fails or is refused
    for its capacity, the second statement fails, or both succeed. *)
Lemma createGroup_outcome (user : claims) (b : group_body) (f : faults)
    (d : db) :
  ((f 0%nat = true \/ capacity_of b = None)
   /\ db_after (run (createGroup user b) f d) = d
   /\ published (run (createGroup user b) f d) = []
   /\ response_of (run (createGroup user b) f d)
      = Ok (error 500 "Failed to create group"))
  \/ (exists cap,
        capacity_of b = Some cap /\ f 0%nat = false /\ f 1%nat = true
        /\ db_after (run (createGroup user b) f d) = with_group d user b cap
        /\ published (run (createGroup user b) f d) = [with_group d user b cap]
        /\ response_of (run (createGroup user b) f d)
           = Ok (error 500 "Failed to create group"))
  \/ (exists cap,
        capacity_of b = Some cap /\ f 0%nat = false /\ f 1%nat = false
        /\ db_after (run (createGroup user b) f d) = with_owner d user b cap
        /\ published (run (createGroup user b) f d)
           = [with_group d user b cap; with_owner d user b cap]
        /\ response_of (run (createGroup user b) f d)
           = Ok {| status := 201; body := JOkGroup (groups_seq d) |}).
Proof.
  unfold createGroup, insert_group_values.
  change (Js.int_param (Js.or_value (gb_max_members b) (Js.Number 10)))
    with (capacity_of b).
  unfold_monad; simpl_world.
  step_fault f; [left; cbn; auto|].
  destruct (capacity_of b) as [cap|]; [|left; cbn; auto].
  cbn. step_fault f; [right; left|right; right]; exists cap; cbn;
    repeat split; auto.
Qed.

(* ================================================================== *)
(** ** The capacity bound *)

Lemma NoDup_map_eq {A B} (k : A -> B) (l : list A) (a b : A) :
  NoDup (map k l) -> In a l -> In b l -> k a = k b -> a = b.
Proof.
  induction l as [|x l IH]; cbn; intros Hnd Ha Hb Hk; [contradiction|].
  inversion Hnd as [|? ? Hx Hl]; subst.
  destruct Ha as [->|Ha], Hb as [->|Hb]; auto.
  - exfalso. apply Hx. rewrite Hk. now apply in_map.
  - exfalso. apply Hx. rewrite <- Hk. now apply in_map.
Qed.

Lemma groups_by_id_head (d : db) (gid : Z) (g : group_row)
    (rest : list group_row) :
  groups_by_id d gid = g :: rest -> In g (groups d) /\ g_id g = gid.
Proof.
  intros Hg.
  assert (Hin : In g (groups_by_id d gid)) by (rewrite Hg; now left).
  apply filter_In in Hin. destruct Hin as [Hin Heq].
  split; [assumption|lia].
Qed.

Lemma member_count_added (d : db) (m : member_row) (gid : Z) :
  member_count (set_group_members d (group_members d ++ [m])) gid
  = member_count d gid + (if gm_group_id m =? gid then 1 else 0).
Proof.
  unfold member_count; cbn.
  rewrite filter_app, length_app; cbn.
  destruct (gm_group_id m =? gid); cbn [List.length]; lia.
Qed.

Lemma member_count_nonneg (d : db) (gid : Z) : 0 <= member_count d gid.
Proof. unfold member_count; lia. Qed.

(** Nobody is a member of the group whose id the counter hands out next. *)
Lemma fresh_group_has_no_members (d : db) :
  well_keyed d -> member_count d (groups_seq d) = 0.
Proof.
  intros [_ _ Hm]. unfold member_count.
  replace (filter (fun m => gm_group_id m =? groups_seq d) (group_members d))
    with (@nil member_row); [reflexivity|].
  symmetry. induction (group_members d) as [|m l IH]; cbn; [reflexivity|].
  destruct (gm_group_id m =? groups_seq d) eqn:E.
  - specialize (Hm m (or_introl eq_refl)). lia.
  - apply IH. intros m' Hin. apply Hm. now right.
Qed.

Lemma Inv_with_group (d : db) (user : claims) (b : group_body) (cap : Z) :
  Inv d -> 0 <= cap ->
  Inv (with_group d user b cap).
Proof.
  intros [Hk Hc] Hmax. pose proof (fresh_group_has_no_members d Hk) as Hfresh.
  destruct Hk as [Hnd Hg Hm]. split; [split|]; cbn.
  - rewrite map_app; cbn. apply NoDup_app.
    + assumption.
    + repeat constructor. intros [].
    + intros x Hx [<-|[]]. apply in_map_iff in Hx.
      destruct Hx as [g [Heq Hin]]. specialize (Hg g Hin). lia.
  - intros g Hin. apply in_app_or in Hin. destruct Hin as [Hin|[<-|[]]].
    + specialize (Hg g Hin). lia.
    + cbn. lia.
  - intros m Hin. specialize (Hm m Hin). lia.
  - intros g Hin. cbn in Hin. apply in_app_or in Hin.
    change (member_count (with_group d user b cap) (g_id g))
      with (member_count d (g_id g)).
    destruct Hin as [Hin|[<-|[]]].
    + now apply Hc.
    + cbn [g_id g_max_members]. lia.
Qed.

Lemma Inv_with_owner (d : db) (user : claims) (b : group_body) (cap : Z) :
  Inv d -> 1 <= cap ->
  Inv (with_owner d user b cap).
Proof.
  intros HI Hmax.
  pose proof (fresh_group_has_no_members d (proj1 HI)) as Hfresh.
  assert (HG : Inv (with_group d user b cap)) by (apply Inv_with_group; [easy|lia]).
  destruct HI as [[Hnd Hg Hm] Hc]. destruct HG as [[Hnd' Hg' Hm'] Hc'].
  split; [split|].
  - exact Hnd'.
  - exact Hg'.
  - cbn. intros m Hin. apply in_app_or in Hin. destruct Hin as [Hin|[<-|[]]].
    + specialize (Hm m Hin). lia.
    + cbn. lia.
  - intros g Hin.
    change (groups (with_owner d user b cap)) with (groups (with_group d user b cap))
      in Hin.
    change (with_owner d user b cap)
      with (set_group_members (with_group d user b cap)
              (group_members (with_group d user b cap)
               ++ [{| gm_group_id := groups_seq d; gm_user_id := c_id user;
                      gm_role := Some "owner" |}])).
    rewrite member_count_added. cbn [gm_group_id].
    change (member_count (with_group d user b cap) (g_id g))
      with (member_count d (g_id g)).
    cbn in Hin. apply in_app_or in Hin. destruct Hin as [Hin|[<-|[]]].
    + specialize (Hg g Hin). specialize (Hc g Hin).
      destruct (groups_seq d =? g_id g) eqn:E; lia.
    + cbn [g_id g_max_members]. rewrite Z.eqb_refl. lia.
Qed.

Lemma Inv_joined (d : db) (gid uid : Z) (g : group_row)
    (rest : list group_row) :
  Inv d -> groups_by_id d gid = g :: rest ->
  member_count d gid < g_max_members g ->
  Inv (joined d gid uid).
Proof.
  intros [[Hnd Hg Hm] Hc] Hsel Hlt.
  apply groups_by_id_head in Hsel. destruct Hsel as [Hin Hid]. subst gid.
  pose proof (Hc g Hin) as Hcg.
  split; [split|].
  - exact Hnd.
  - exact Hg.
  - cbn. intros m Hm'. apply in_app_or in Hm'.
    destruct Hm' as [Hm'|[<-|[]]].
    + now apply Hm.
    + cbn. specialize (Hg g Hin). lia.
  - intros g' Hin'. unfold joined. rewrite member_count_added.
    cbn [gm_group_id]. change (groups (set_group_members d _)) with (groups d)
      in Hin'.
    destruct (g_id g =? g_id g') eqn:E.
    + assert (g' = g) as ->
        by (apply (NoDup_map_eq g_id (groups d)); auto; lia).
      lia.
    + specialize (Hc g' Hin'). lia.
Qed.

(** One operation keeps the invariant at every state it publishes. *)
Lemma exec_keeps_Inv (o : op) (d : db) :
  Inv d -> positive_capacity o ->
  Forall Inv (published (exec o d)) /\ Inv (db_after (exec o d)).
Proof.
  intros HI Hpos. destruct o as [user b f|user id f]; cbn [exec].
  - cbn in Hpos. destruct Hpos as (cap0 & Hcap0 & Hpos).
    destruct (createGroup_outcome user b f d)
      as [(_ & -> & -> & _)
         |[(cap & Hcap & _ & _ & -> & -> & _)
          |(cap & Hcap & _ & _ & -> & -> & _)]].
    + split; [constructor|assumption].
    + assert (cap = cap0) as -> by congruence.
      assert (Inv (with_group d user b cap0))
        by (apply Inv_with_group; [easy|lia]).
      split; [constructor; [assumption|constructor]|assumption].
    + assert (cap = cap0) as -> by congruence.
      assert (Inv (with_group d user b cap0))
        by (apply Inv_with_group; [easy|lia]).
      assert (Inv (with_owner d user b cap0)) by now apply Inv_with_owner.
      split; [|assumption].
      constructor; [assumption|constructor; [assumption|constructor]].
  - destruct (join_outcome user id f d)
      as [(-> & -> & _)|(gid & g & rest & _ & Hsel & Hlt & _ & -> & -> & _)].
    + split; [constructor|assumption].
    + assert (Inv (joined d gid (c_id user)))
        by now apply (Inv_joined d gid _ g rest).
      split; [constructor; [assumption|constructor]|assumption].
Qed.

Lemma trace_keeps_Inv (ops : list op) :
  forall d, Inv d -> Forall positive_capacity ops -> Forall Inv (trace d ops).
Proof.
  induction ops as [|o ops IH]; intros d HI Hops; cbn [trace]; [constructor|].
  inversion Hops as [|? ? Ho Hrest]; subst.
  destruct (exec_keeps_Inv o d HI Ho) as [Hpub Hafter].
  apply Forall_app. split; [assumption|]. now apply IH.
Qed.

(** Join adds a membership row only after counting fewer members than the
    capacity of the group. *)
Lemma join_admits_below_capacity (user : claims) (id : string) (f : faults)
    (d : db) :
  group_members (db_after (run (join user id) f d)) <> group_members d ->
  exists gid g rest,
    Js.parseInt id = Some gid /\ groups_by_id d gid = g :: rest
    /\ member_count d gid < g_max_members g.
Proof.
  intros Hne.
  destruct (join_outcome user id f d)
    as [(Heq & _)|(gid & g & rest & Hp & Hsel & Hlt & _)].
  - rewrite Heq in Hne. contradiction.
  - now exists gid, g, rest.
Qed.

(** C1 (as amended).  Starting from a store that satisfies the capacity bound
    with well-formed keys, and running createGroup and join requests one
    after the other where every createGroup request asks for a capacity --
    [max_members || 10] -- that the store reads as an integer of at least 1,
    every store state that becomes visible satisfies the bound; and a join
    adds a row only when it counted fewer members than the capacity. *)
Theorem capacity_bound_along_trace (d : db) (ops : list op) :
  Inv d -> Forall positive_capacity ops ->
  Forall capacity_ok (d :: trace d ops)
  /\ (forall user id f d0,
        group_members (db_after (run (join user id) f d0)) <> group_members d0 ->
        exists gid g rest,
          Js.parseInt id = Some gid /\ groups_by_id d0 gid = g :: rest
          /\ member_count d0 gid < g_max_members g).
Proof.
  intros HI Hops. split.
  - assert (Hall : Forall Inv (d :: trace d ops))
      by (constructor; [assumption|now apply trace_keeps_Inv]).
    eapply Forall_impl; [|exact Hall]. intros x Hx. exact (proj2 Hx).
  - intros user id f d0. apply join_admits_below_capacity.
Qed.

Lemma Inv_empty_db : Inv empty_db.
Proof.
  split; [split|]; cbn.
  - constructor.
  - intros g [].
  - intros m [].
  - intros g [].
Defined.

Lemma capacity_bound_along_trace_witness :
  Inv empty_db
  /\ Forall positive_capacity
       [CreateGroup Sample.alice Sample.solo no_faults;
        Join Sample.bob "1" no_faults;
        CreateGroup Sample.alice Sample.pair Sample.second_call_fails]
  /\ Forall capacity_ok
       (empty_db
        :: trace empty_db
             [CreateGroup Sample.alice Sample.solo no_faults;
              Join Sample.bob "1" no_faults;
              CreateGroup Sample.alice Sample.pair Sample.second_call_fails]).
Proof.
  split; [exact Inv_empty_db|].
  assert (Hops : Forall positive_capacity
       [CreateGroup Sample.alice Sample.solo no_faults;
        Join Sample.bob "1" no_faults;
        CreateGroup Sample.alice Sample.pair Sample.second_call_fails]).
  { constructor; [exists 1; split; [reflexivity|lia]|].
    constructor; [exact I|].
    constructor; [exists 2; split; [reflexivity|lia]|constructor]. }
  split; [exact Hops|].
  exact (proj1 (capacity_bound_along_trace empty_db _ Inv_empty_db Hops)).
Defined.

(** C1 (as stated) fails: a createGroup request with [max_members = -1] is
    stored as it is, and the new group exceeds its capacity as soon as it is
    visible. *)
Lemma negative_capacity_breaks_bound :
  Inv empty_db
  /\ ~ Forall capacity_ok
         (empty_db
          :: trace empty_db
               [CreateGroup Sample.alice Sample.negative no_faults]).
Proof.
  split; [exact Inv_empty_db|].
  intros Hall. inversion Hall as [|? ? _ Htail]; subst.
  cbn in Htail. inversion Htail as [|? ? _ Htail']; subst.
  inversion Htail' as [|? ? Hlast _]; subst.
  specialize (Hlast _ (or_introl eq_refl)).
  vm_compute in Hlast. apply Hlast. reflexivity.
Qed.

(** What [max_members || 10] asks the store to keep: 10 for a falsy value,
    the number itself for any other number, what the store reads from the
    text for a non-empty string -- 0 for "0" -- and nothing the store could
    read for [true] or an object. *)
Lemma capacity_of_cases (b : group_body) :
  (Js.truthy_value (gb_max_members b) = false -> capacity_of b = Some 10)
  /\ (forall n, gb_max_members b = Js.Number n -> n <> 0 ->
                capacity_of b = Some n)
  /\ (forall t, gb_max_members b = Js.Str t -> t <> "" ->
                capacity_of b = Js.read_integer t)
  /\ (gb_max_members b = Js.Bool true \/ gb_max_members b = Js.Object ->
      capacity_of b = None).
Proof.
  unfold capacity_of, Js.or_value. repeat split.
  - intros ->. reflexivity.
  - intros n -> Hn. cbn. destruct (Z.eqb_spec n 0); [contradiction|].
    reflexivity.
  - intros t -> Ht. cbn. destruct (String.eqb_spec t ""); [contradiction|].
    reflexivity.
  - intros [-> | ->]; reflexivity.
Qed.

(** A capacity given as the text "0" is truthy, so it is not replaced by 10:
    the store reads 0 and the owner's row exceeds it. *)
Lemma text_zero_capacity_breaks_bound :
  capacity_of Fixture.zero_text = Some 0
  /\ ~ Forall capacity_ok
         (empty_db
          :: trace empty_db
               [CreateGroup Sample.alice Fixture.zero_text no_faults]).
Proof.
  split; [reflexivity|].
  intros Hall. inversion Hall as [|? ? _ Htail]; subst.
  cbn in Htail. inversion Htail as [|? ? _ Htail']; subst.
  inversion Htail' as [|? ? Hlast _]; subst.
  specialize (Hlast _ (or_introl eq_refl)).
  vm_compute in Hlast. apply Hlast. reflexivity.
Qed.

(** Statements of different requests can interleave.  A join that lands
    between the two inserts of a createGroup request takes the only seat of
    the new group; the owner's row, inserted without any check, then exceeds
    the capacity. *)
Lemma join_between_createGroup_statements :
  response_of
    (run (join Sample.bob "1") no_faults
       (with_group empty_db Sample.alice Sample.solo 1))
  = Ok (json JOk)
  /\ exists d,
       insert_member 1 (c_id Sample.alice) (Some "owner")
         (db_after
            (run (join Sample.bob "1") no_faults
               (with_group empty_db Sample.alice Sample.solo 1)))
       = Ok (tt, d)
       /\ map g_max_members (groups d) = [1]
       /\ member_count d 1 = 2.
Proof.
  split; [reflexivity|]. eexists. split; [reflexivity|]. split; reflexivity.
Qed.

(* ================================================================== *)
(** ** Join: the order of the admission questions *)

(** With no storage failure, join answers by asking, in this order: does the
    id parse, does the group exist, is the group full, is the caller already
    a member. *)
Lemma join_answer (user : claims) (id : string) (d : db) :
  response_of (run (join user id) no_faults d)
  = match Js.parseInt id with
    | None => Ok (error 400 "Invalid group ID")
    | Some gid =>
        match groups_by_id d gid with
        | [] => Ok (error 404 "Group not found")
        | g :: _ =>
            if member_count d gid >=? g_max_members g
            then Ok (error 400 "Group is full")
            else if (0 <? List.length (memberships d gid (c_id user)))%nat
            then Ok (error 400 "Already a member")
            else Ok (json JOk)
        end
    end.
Proof.
  unfold join. destruct (Js.parseInt id) as [gid|]; [|reflexivity].
  unfold_monad; unfold no_faults; simpl_world.
  destruct (groups_by_id d gid) as [|g rest]; [reflexivity|]. cbn.
  destruct (member_count d gid >=? g_max_members g); [reflexivity|]. cbn.
  destruct (memberships d gid (c_id user)); reflexivity.
Qed.

(** A member of a group that is full is told that the group is full. *)
Lemma join_member_of_full_group (user : claims) (id : string) (d : db)
    (gid : Z) (g : group_row) (rest : list group_row) :
  Js.parseInt id = Some gid -> groups_by_id d gid = g :: rest ->
  g_max_members g <= member_count d gid ->
  memberships d gid (c_id user) <> [] ->
  response_of (run (join user id) no_faults d)
  = Ok (error 400 "Group is full").
Proof.
  intros Hp Hg Hfull _. rewrite join_answer, Hp, Hg.
  destruct (member_count d gid >=? g_max_members g) eqn:E; [reflexivity|lia].
Qed.

(** A member of a group with a free seat is told so. *)
Lemma join_member_of_open_group (user : claims) (id : string) (d : db)
    (gid : Z) (g : group_row) (rest : list group_row) :
  Js.parseInt id = Some gid -> groups_by_id d gid = g :: rest ->
  member_count d gid < g_max_members g ->
  memberships d gid (c_id user) <> [] ->
  response_of (run (join user id) no_faults d)
  = Ok (error 400 "Already a member").
Proof.
  intros Hp Hg Hfree Hm. rewrite join_answer, Hp, Hg.
  destruct (member_count d gid >=? g_max_members g) eqn:E; [lia|].
  destruct (memberships d gid (c_id user)); [contradiction|reflexivity].
Qed.

(** The earlier variant tells a member of a full group that it is a member
    already. *)
Lemma legacy_join_member_of_full_group :
  response_of (run (Legacy.join Sample.alice (Some 1)) no_faults Sample.solo_db)
  = Ok (error 400 "Already a member").
Proof. reflexivity. Qed.

(** C2 (the code at the failing input).  Alice is the only member of group 1,
    whose capacity is 1.  When she joins again the handler answers
    "Group is full" and not "Already a member": it asks about the capacity
    before it asks about the membership. *)
Theorem join_again_on_full_group :
  memberships Sample.solo_db 1 (c_id Sample.alice)
  = [{| gm_group_id := 1; gm_user_id := 1; gm_role := Some "owner" |}]
  /\ response_of (run (join Sample.alice "1") no_faults Sample.solo_db)
     = Ok (error 400 "Group is full")
  /\ response_of (run (join Sample.alice "1") no_faults Sample.solo_db)
     <> Ok (error 400 "Already a member").
Proof.
  split; [reflexivity|]. split; [reflexivity|].
  vm_compute. discriminate.
Qed.

(* ================================================================== *)
(** ** createGroup: two statements, no transaction *)

(** When the second statement fails after the store took the first, the
    group row stays, with no member. *)
Lemma createGroup_second_statement_fails (user : claims) (b : group_body)
    (f : faults) (d : db) (cap : Z) :
  well_keyed d -> capacity_of b = Some cap ->
  f 0%nat = false -> f 1%nat = true ->
  response_of (run (createGroup user b) f d)
  = Ok (error 500 "Failed to create group")
  /\ exists g,
       In g (groups (db_after (run (createGroup user b) f d)))
       /\ ~ In g (groups d)
       /\ member_count (db_after (run (createGroup user b) f d)) (g_id g) = 0.
Proof.
  intros Hk Hcap H0 H1.
  destruct (createGroup_outcome user b f d)
    as [([E|E] & _)
       |[(cap' & Hcap' & _ & _ & -> & _ & ->)|(cap' & _ & _ & E & _)]];
    try congruence.
  assert (cap' = cap) as -> by congruence.
  split; [reflexivity|].
  eexists. split; [cbn; apply in_or_app; right; left; reflexivity|].
  split.
  - intros Hin. apply (group_ids_issued d Hk) in Hin. cbn in Hin. lia.
  - cbn [g_id].
    change (member_count (with_group d user b cap) (groups_seq d))
      with (member_count d (groups_seq d)).
    now apply fresh_group_has_no_members.
Qed.

(** C3 (the code at the failing input).  The membership insert of a
    createGroup request fails after its group insert succeeded: the request
    is answered with 500 and the store shows the new group with no member,
    not even its owner. *)
Theorem createGroup_leaves_group_without_owner :
  response_of
    (run (createGroup Sample.alice Sample.pair) Sample.second_call_fails
       empty_db)
  = Ok (error 500 "Failed to create group")
  /\ map g_id
       (groups
          (db_after
             (run (createGroup Sample.alice Sample.pair)
                Sample.second_call_fails empty_db)))
     = [1]
  /\ group_members
       (db_after
          (run (createGroup Sample.alice Sample.pair)
             Sample.second_call_fails empty_db))
     = [].
Proof. repeat split. Qed.

(* ================================================================== *)
(** ** Join: failures leave no trace *)

(** C4.  Whenever join does not answer [{ ok: true }] -- it rejects with 400
    or 404, reports a storage failure with 500, or the failure escapes the
    handler -- the store is what it was before the request and no other
    state was ever visible. *)
Theorem join_failure_changes_nothing (user : claims) (id : string)
    (f : faults) (d : db) :
  response_of (run (join user id) f d) <> Ok (json JOk) ->
  db_after (run (join user id) f d) = d
  /\ published (run (join user id) f d) = [].
Proof.
  intros Hfail.
  destruct (join_outcome user id f d)
    as [(Hdb & Hpub & _)|(gid & g & rest & _ & _ & _ & _ & _ & _ & Hok)].
  - now split.
  - contradiction.
Qed.

Lemma join_failure_changes_nothing_witness :
  response_of (run (join Sample.alice "1") Sample.second_call_fails
                 Sample.solo_db)
  <> Ok (json JOk)
  /\ db_after (run (join Sample.alice "1") Sample.second_call_fails
                 Sample.solo_db)
     = Sample.solo_db.
Proof.
  assert (H : response_of (run (join Sample.alice "1")
                             Sample.second_call_fails Sample.solo_db)
              <> Ok (json JOk)) by (vm_compute; discriminate).
  split; [exact H|].
  exact (proj1 (join_failure_changes_nothing Sample.alice "1"
                  Sample.second_call_fails Sample.solo_db H)).
Defined.

(** The rejections and the reported storage failure, one by one. *)
Lemma join_responses (user : claims) (id : string) (f : faults) (d : db) :
  response_of (run (join user id) f d) = Ok (json JOk)
  \/ response_of (run (join user id) f d) = Ok (error 400 "Invalid group ID")
  \/ response_of (run (join user id) f d) = Ok (error 404 "Group not found")
  \/ response_of (run (join user id) f d) = Ok (error 400 "Group is full")
  \/ response_of (run (join user id) f d) = Ok (error 400 "Already a member")
  \/ response_of (run (join user id) f d) = Ok (error 500 "Failed to join group")
  \/ response_of (run (join user id) f d) = Throw.
Proof.
  unfold join. destruct (Js.parseInt id) as [gid|]; [|cbn; tauto].
  unfold_monad; simpl_world.
  step_fault f; [cbn; tauto|].
  step_fault f; [step_fault f; cbn; tauto|].
  step_fault f; [step_fault f; cbn; tauto|].
  destruct (groups_by_id d gid) as [|g rest].
  { cbn. step_fault f; [step_fault f|]; cbn; tauto. }
  cbn. step_fault f; [step_fault f; cbn; tauto|].
  destruct (member_count d gid >=? g_max_members g).
  { cbn. step_fault f; [step_fault f|]; cbn; tauto. }
  cbn. step_fault f; [step_fault f; cbn; tauto|].
  destruct (memberships d gid (c_id user)).
  2:{ cbn. step_fault f; [step_fault f|]; cbn; tauto. }
  cbn. step_fault f; [step_fault f; cbn; tauto|].
  step_fault f; [step_fault f; cbn; tauto|].
  cbn; tauto.
Qed.

(* ================================================================== *)
(** ** Join: an id that is no number *)

(** C10.  When the path parameter of a join request does not parse as an
    integer, the handler answers 400 "Invalid group ID" without any storage
    call -- no connection is acquired -- and the store is unchanged. *)
Theorem join_rejects_unparsable_id (user : claims) (id : string) (f : faults)
    (d : db) :
  Js.parseInt id = None ->
  response_of (run (join user id) f d) = Ok (error 400 "Invalid group ID")
  /\ calls_of (run (join user id) f d) = []
  /\ db_after (run (join user id) f d) = d
  /\ published (run (join user id) f d) = [].
Proof.
  intros Hnan. unfold join. rewrite Hnan. repeat split.
Qed.

Lemma join_rejects_unparsable_id_witness :
  Js.parseInt "abc" = None
  /\ response_of (run (join Sample.alice "abc") no_faults Sample.solo_db)
     = Ok (error 400 "Invalid group ID")
  /\ calls_of (run (join Sample.alice "abc") no_faults Sample.solo_db) = [].
Proof.
  split; [reflexivity|].
  pose proof (join_rejects_unparsable_id Sample.alice "abc" no_faults
                Sample.solo_db eq_refl) as H.
  split; [exact (proj1 H)|exact (proj1 (proj2 H))].
Defined.

(* ================================================================== *)
(** ** Registration and login *)

Lemma truthy_some (x : option string) :
  Js.truthy x = true -> exists s, x = Some s /\ s <> "" /\ Js.or_else x "" = s.
Proof.
  destruct x as [s|]; cbn; [|discriminate].
  destruct (String.eqb_spec s ""); cbn; [discriminate|].
  intros _. now exists s.
Qed.

Lemma users_by_email_present (d : db) (e : string) (u : user_row) :
  In u (users d) -> u_email u = e ->
  exists x rest, users_by_email d e = x :: rest.
Proof.
  intros Hin He.
  assert (Hf : In u (users_by_email d e)).
  { apply filter_In. split; [assumption|]. now apply String.eqb_eq. }
  destruct (users_by_email d e) as [|x rest]; [contradiction|].
  now exists x, rest.
Qed.

Section AuthenticationFacts.

Context `{Crypto}.

(** A request without an [Authorization] header is turned away before the
    route's handler runs. *)
Lemma authMiddleware_no_header (next : claims -> M response) :
  authMiddleware None next
  = ret (error 401 "No token provided or malformed header").
Proof. reflexivity. Qed.

(** A bearer token that verifies hands its claims to the route's handler. *)
Lemma authMiddleware_bearer (t : string) (c : claims)
    (next : claims -> M response) :
  jwt_verify (nth 0 (Js.split_space t) "") = Some c ->
  authMiddleware (Some ("Bearer " ++ t)) next = next c.
Proof.
  intros Hv. unfold authMiddleware. cbn.
  destruct (Js.split_space t) as [|piece rest]; cbn in *; now rewrite Hv.
Qed.

(** C5.  When the e-mail address of a register request is already that of a
    stored user, the users table -- the whole store -- is left as it was and
    no other state was ever visible; and when the request carries all three
    fields and the lookup does not fail, the answer is 409
    "Email already in use". *)
Theorem register_existing_email (b : register_body) (f : faults) (d : db)
    (e : string) (u : user_row) :
  rb_email b = Some e -> In u (users d) -> u_email u = e ->
  db_after (run (register b) f d) = d
  /\ published (run (register b) f d) = []
  /\ (e <> "" -> Js.truthy (rb_password b) = true ->
      Js.truthy (rb_display_name b) = true -> f 0%nat = false ->
      response_of (run (register b) f d)
      = Ok (error 409 "Email already in use")).
Proof.
  intros He Hin Hu.
  destruct (users_by_email_present d e u Hin Hu) as (x & rest & Hsel).
  unfold register. rewrite He.
  destruct (String.eqb_spec e "") as [->|Hne].
  { cbn. repeat split. intros Habs; now elim Habs. }
  assert (Ht : Js.falsy (Some e) = false).
  { unfold Js.falsy, Js.truthy. destruct (String.eqb_spec e ""); easy. }
  assert (Hor : Js.or_else (Some e) "" = e).
  { cbn. destruct (String.eqb_spec e ""); easy. }
  rewrite Ht, Hor. cbn [orb].
  destruct (Js.falsy (rb_password b)) eqn:Hp.
  { cbn. repeat split. unfold Js.falsy in Hp. intros _ Hp'.
    rewrite Hp' in Hp. discriminate. }
  destruct (Js.falsy (rb_display_name b)) eqn:Hn.
  { cbn. repeat split. unfold Js.falsy in Hn. intros _ _ Hn'.
    rewrite Hn' in Hn. discriminate. }
  cbn [orb]. unfold_monad; simpl_world.
  step_fault f.
  { cbn. repeat split. intros _ _ _ Hf. discriminate. }
  rewrite Hsel. cbn. repeat split.
Qed.

(** With passwords that are strings, a login with an e-mail address no
    user has and a login with the address of a user but a password that
    does not match its hash are answered alike: 401 "Invalid credentials"
    both. *)
Lemma login_rejections_coincide (absent wrong : login_body)
    (f1 f2 : faults) (d1 d2 : db) (user : user_row) (others : list user_row)
    (p1 p2 : string) :
  Js.truthy (lb_email absent) = true ->
  lb_password absent = Js.Str p1 -> p1 <> "" ->
  Js.truthy (lb_email wrong) = true ->
  lb_password wrong = Js.Str p2 -> p2 <> "" ->
  f1 0%nat = false -> f2 0%nat = false ->
  users_by_email d1 (Js.or_else (lb_email absent) "") = [] ->
  users_by_email d2 (Js.or_else (lb_email wrong) "") = user :: others ->
  bcrypt_compare p2 (u_password_hash user) = false ->
  response_of (run (login absent) f1 d1) = response_of (run (login wrong) f2 d2)
  /\ response_of (run (login absent) f1 d1)
     = Ok (error 401 "Invalid credentials").
Proof.
  intros Ha1 Ha2 Hp1 Hw1 Hw2 Hp2 Hf1 Hf2 Habs Hpres Hbad.
  assert (T1 : Js.falsy_value (Js.Str p1) = false).
  { unfold Js.falsy_value, Js.truthy_value.
    destruct (String.eqb_spec p1 ""); [contradiction|reflexivity]. }
  assert (T2 : Js.falsy_value (Js.Str p2) = false).
  { unfold Js.falsy_value, Js.truthy_value.
    destruct (String.eqb_spec p2 ""); [contradiction|reflexivity]. }
  assert (E1 : response_of (run (login absent) f1 d1)
               = Ok (error 401 "Invalid credentials")).
  { unfold login, Js.falsy. rewrite Ha1, Ha2, T1. cbn [negb orb].
    unfold_monad; simpl_world. rewrite Hf1, Habs. reflexivity. }
  assert (E2 : response_of (run (login wrong) f2 d2)
               = Ok (error 401 "Invalid credentials")).
  { unfold login, Js.falsy. rewrite Hw1, Hw2, T2. cbn [negb orb].
    unfold compare_password. unfold_monad; simpl_world.
    rewrite Hf2, Hpres. cbn. rewrite Hbad. reflexivity. }
  split; [congruence|assumption].
Qed.

(** With a password that is truthy but no string, the lookup decides the
    answer: 401 when nobody has the address, 500 when somebody has, because
    the comparison rejects the password and the catch block answers. *)
Lemma login_password_not_a_string (b : login_body) (f : faults) (d : db) :
  Js.truthy (lb_email b) = true ->
  Js.truthy_value (lb_password b) = true ->
  (forall s, lb_password b <> Js.Str s) ->
  f 0%nat = false ->
  (users_by_email d (Js.or_else (lb_email b) "") = [] ->
   response_of (run (login b) f d) = Ok (error 401 "Invalid credentials"))
  /\ (users_by_email d (Js.or_else (lb_email b) "") <> [] ->
      response_of (run (login b) f d) = Ok (error 500 "Internal server error")).
Proof.
  intros He Hp Hns Hf. unfold login, Js.falsy, Js.falsy_value.
  rewrite He, Hp. cbn [negb orb].
  unfold compare_password. unfold_monad; simpl_world. rewrite Hf.
  destruct (users_by_email d _) as [|u rest].
  - split; [reflexivity|intros Habs; now elim Habs].
  - split; [discriminate|]. intros _. simpl_world.
    destruct (lb_password b) as [| |x|n|s|]; try reflexivity.
    now elim (Hns s).
Qed.

(** C6 (the code at the failing input).  Two logins carry the number 1 as
    password.  The one for the address of a stored user is answered 500
    "Internal server error", the one for an address nobody has is answered
    401 "Invalid credentials": the two answers differ and tell whether the
    address is registered. *)
Theorem login_number_password_tells_accounts_apart :
  response_of (run (login Fixture.number_for_alice) no_faults Sample.users_db)
  = Ok (error 500 "Internal server error")
  /\ response_of
       (run (login Fixture.number_for_nobody) no_faults Sample.users_db)
     = Ok (error 401 "Invalid credentials")
  /\ response_of (run (login Fixture.number_for_alice) no_faults
                    Sample.users_db)
     <> response_of (run (login Fixture.number_for_nobody) no_faults
                       Sample.users_db).
Proof.
  assert (E1 : response_of (run (login Fixture.number_for_alice) no_faults
                              Sample.users_db)
               = Ok (error 500 "Internal server error")) by reflexivity.
  assert (E2 : response_of (run (login Fixture.number_for_nobody) no_faults
                              Sample.users_db)
               = Ok (error 401 "Invalid credentials")) by reflexivity.
  split; [exact E1|]. split; [exact E2|].
  rewrite E1, E2. discriminate.
Qed.

End AuthenticationFacts.

Lemma register_existing_email_witness :
  db_after
    (run (@register Sample.toy_crypto
            {| rb_email := Some "alice@example.org";
               rb_password := Some "other"; rb_display_name := Some "Al" |})
       no_faults Sample.users_db)
  = Sample.users_db
  /\ response_of
       (run (@register Sample.toy_crypto
               {| rb_email := Some "alice@example.org";
                  rb_password := Some "other"; rb_display_name := Some "Al" |})
          no_faults Sample.users_db)
     = Ok (error 409 "Email already in use").
Proof.
  pose proof (@register_existing_email Sample.toy_crypto
                {| rb_email := Some "alice@example.org";
                   rb_password := Some "other"; rb_display_name := Some "Al" |}
                no_faults Sample.users_db "alice@example.org" Sample.alice_row
                eq_refl (or_introl eq_refl) eq_refl) as (Hdb & _ & Hresp).
  split; [exact Hdb|].
  apply Hresp; [discriminate|reflexivity|reflexivity|reflexivity].
Defined.

Lemma login_rejections_coincide_sample :
  response_of
    (run (@login Sample.toy_crypto
            {| lb_email := Some "nobody@example.org";
               lb_password := Js.Str "secret" |})
       no_faults Sample.users_db)
  = response_of
      (run (@login Sample.toy_crypto
              {| lb_email := Some "alice@example.org";
                 lb_password := Js.Str "guess" |})
         no_faults Sample.users_db).
Proof.
  exact (proj1 (@login_rejections_coincide Sample.toy_crypto
                  {| lb_email := Some "nobody@example.org";
                     lb_password := Js.Str "secret" |}
                  {| lb_email := Some "alice@example.org";
                     lb_password := Js.Str "guess" |}
                  no_faults no_faults Sample.users_db Sample.users_db
                  Sample.alice_row [] "secret" "guess"
                  eq_refl eq_refl ltac:(discriminate)
                  eq_refl eq_refl ltac:(discriminate) eq_refl eq_refl
                  eq_refl eq_refl eq_refl)).
Defined.

(* ================================================================== *)
(** ** Profiles *)

(** What [x || null] stores. *)
Lemma or_null_cases (x : option string) :
  (x = None -> Js.or_null x = None)
  /\ (x = Some "" -> Js.or_null x = None)
  /\ (forall s, x = Some s -> s <> "" -> Js.or_null x = Some s).
Proof.
  repeat split; intros; subst; cbn; try reflexivity.
  destruct (String.eqb_spec s ""); [contradiction|reflexivity].
Qed.







(* ================================================================== *)
(** ** Messages *)

(** C9.  A message request is answered 400 "Empty message" exactly when its
    text is missing or empty, and then the store is unchanged.  With a text,
    a group id that parses and no storage failure, the message is appended
    for the caller, whatever the memberships of the store are and whether or
    not a group with that id exists. *)
Theorem postMessage_contract (user : claims) (id : string)
    (message : option string) (f : faults) (d : db) :
  (response_of (run (postMessage user id message) f d)
   = Ok (error 400 "Empty message")
   <-> Js.falsy message = true)
  /\ (Js.falsy message = true ->
      db_after (run (postMessage user id message) f d) = d)
  /\ (forall gid text,
        message = Some text -> text <> "" ->
        Js.parseInt id = Some gid -> f 0%nat = false ->
        response_of (run (postMessage user id message) f d) = Ok (json JOk)
        /\ group_messages (db_after (run (postMessage user id message) f d))
           = (group_messages d
              ++ [{| m_id := messages_seq d; m_group_id := gid;
                     m_user_id := c_id user; m_message := text;
                     m_sent_at := now d |}])%list
        /\ group_members (db_after (run (postMessage user id message) f d))
           = group_members d
        /\ groups (db_after (run (postMessage user id message) f d))
           = groups d).
Proof.
  unfold postMessage.
  destruct (Js.falsy message) eqn:Hm.
  - split; [split; reflexivity|]. split; [reflexivity|].
    intros gid text -> Hne _ _. unfold Js.falsy, Js.truthy in Hm.
    destruct (String.eqb_spec text ""); [contradiction|discriminate].
  - split.
    { split; [|discriminate]. unfold_monad; simpl_world.
      step_fault f; [cbn; discriminate|].
      destruct (insert_message _ _ _ d) as [[[] d']|]; cbn; discriminate. }
    split; [discriminate|].
    intros gid text -> Hne Hp Hf. rewrite Hp.
    unfold_monad; simpl_world. rewrite Hf. cbn.
    destruct (String.eqb_spec text ""); [contradiction|]. repeat split.
Qed.

(** Bob belongs to no group and group 7 does not exist; his message is
    stored all the same. *)
Lemma postMessage_contract_witness :
  memberships Sample.solo_db 7 (c_id Sample.bob) = []
  /\ groups_by_id Sample.solo_db 7 = []
  /\ response_of
       (run (postMessage Sample.bob "7" (Some "hello")) no_faults
          Sample.solo_db)
     = Ok (json JOk)
  /\ group_messages
       (db_after
          (run (postMessage Sample.bob "7" (Some "hello")) no_faults
             Sample.solo_db))
     = [{| m_id := 1; m_group_id := 7; m_user_id := 2; m_message := "hello";
           m_sent_at := 0 |}].
Proof.
  split; [reflexivity|]. split; [reflexivity|].
  destruct (postMessage_contract Sample.bob "7" (Some "hello") no_faults
              Sample.solo_db) as (_ & _ & Happ).
  destruct (Happ 7 "hello" eq_refl ltac:(discriminate) eq_refl eq_refl)
    as (Hresp & Hmsg & _).
  split; [exact Hresp|exact Hmsg].
Defined.

(* ================================================================== *)
(** ** Searching groups *)

Lemma insert_newest_first_perm (r : match_group_row)
    (l : list match_group_row) :
  Permutation (insert_newest_first r l) (r :: l).
Proof.
  induction l as [|x l IH]; cbn; [reflexivity|].
  destruct (g_created_at (mg_group r) <=? g_created_at (mg_group x)).
  - rewrite IH. apply perm_swap.
  - reflexivity.
Qed.

Lemma order_newest_first_perm (l : list match_group_row) :
  Permutation (order_newest_first l) l.
Proof.
  induction l as [|r l IH]; cbn; [reflexivity|].
  rewrite insert_newest_first_perm. now constructor.
Qed.

Lemma insert_newest_first_sorted (r : match_group_row)
    (l : list match_group_row) :
  StronglySorted newer_or_equal l ->
  StronglySorted newer_or_equal (insert_newest_first r l).
Proof.
  induction l as [|x l IH]; cbn; intros Hs.
  - repeat constructor.
  - inversion Hs as [|? ? Hl Hx]; subst.
    destruct (g_created_at (mg_group r) <=? g_created_at (mg_group x)) eqn:E.
    + constructor; [now apply IH|].
      rewrite Forall_forall. intros y Hy.
      apply (Permutation_in _ (insert_newest_first_perm r l)) in Hy.
      destruct Hy as [<-|Hy]; [unfold newer_or_equal; lia|].
      rewrite Forall_forall in Hx. now apply Hx.
    + constructor; [assumption|].
      constructor; [unfold newer_or_equal; lia|].
      rewrite Forall_forall in Hx |- *. intros y Hy.
      specialize (Hx y Hy). unfold newer_or_equal in *. lia.
Qed.

Lemma order_newest_first_sorted (l : list match_group_row) :
  StronglySorted newer_or_equal (order_newest_first l).
Proof.
  induction l as [|r l IH]; cbn; [constructor|].
  now apply insert_newest_first_sorted.
Qed.

Lemma StronglySorted_app_inv {A} (R : A -> A -> Prop) (l1 l2 : list A) :
  StronglySorted R (l1 ++ l2) ->
  StronglySorted R l1 /\ (forall a b, In a l1 -> In b l2 -> R a b).
Proof.
  induction l1 as [|x l1 IH]; cbn; intros Hs.
  - split; [constructor|intros a b []].
  - inversion Hs as [|? ? Hl Hx]; subst.
    destruct (IH Hl) as [Hs1 Hcross].
    rewrite Forall_forall in Hx. split.
    + constructor; [assumption|].
      rewrite Forall_forall. intros y Hy. apply Hx, in_or_app. now left.
    + intros a b [<-|Ha] Hb.
      * apply Hx, in_or_app. now right.
      * now apply Hcross.
Qed.

(** A key that occurs once selects one row. *)
Lemma filter_no_key {A} (k : A -> Z) (v : Z) (l : list A) :
  ~ In v (map k l) -> filter (fun y => k y =? v) l = [].
Proof.
  induction l as [|x l IH]; cbn; intros Hn; [reflexivity|].
  destruct (Z.eqb_spec (k x) v) as [E|E].
  - exfalso. apply Hn. now left.
  - apply IH. intros Hin. apply Hn. now right.
Qed.

Lemma filter_unique_key {A} (k : A -> Z) (v : Z) (l : list A) :
  NoDup (map k l) -> In v (map k l) ->
  exists a, filter (fun y => k y =? v) l = [a].
Proof.
  induction l as [|x l IH]; cbn; intros Hnd Hin; [contradiction|].
  inversion Hnd as [|? ? Hx Hl]; subst.
  destruct (Z.eqb_spec (k x) v) as [E|E].
  - exists x. f_equal. apply filter_no_key. now rewrite <- E.
  - destruct Hin as [Hin|Hin]; [contradiction|]. now apply IH.
Qed.

(** The handler's [WHERE] clause says what the specification asks for. *)
Lemma group_matches_wanted (s : Z) (level : option string) (g : group_row) :
  group_matches (Some s) level g = wanted s (Js.or_null level) g.
Proof.
  unfold group_matches, wanted. f_equal.
  destruct level as [l|]; cbn; [|reflexivity].
  destruct (String.eqb_spec l ""); reflexivity.
Qed.

(** With every reference in place the joins neither drop nor repeat a
    group: the joined rows are the wanted groups in table order, each with
    its member count. *)
Lemma match_group_rows_groups (s : Z) (level : option string) (d : db) :
  references_ok d ->
  map mg_group (match_group_rows (Some s) level d)
  = filter (group_matches (Some s) level) (groups d)
  /\ Forall (fun r => mg_member_count r = member_count d (g_id (mg_group r)))
       (match_group_rows (Some s) level d).
Proof.
  intros [Hs Hu Hgs Hgo]. unfold match_group_rows.
  assert (Hsub : forall g, In g (groups d) -> In g (groups d)) by auto.
  revert Hsub. generalize (groups d) at 1 3 4 5 as gs.
  induction gs as [|g gs IH]; cbn [flat_map filter map]; intros Hsub.
  { split; constructor. }
  destruct IH as [IHm IHf]; [intros g' Hg'; apply Hsub; now right|].
  assert (Hg : In g (groups d)) by (apply Hsub; now left).
  rewrite map_app, Forall_app, IHm.
  destruct (group_matches (Some s) level g) eqn:E.
  - assert (exists a, g_subject_id g = Some a) as [a Ha].
    { unfold group_matches in E. destruct (g_subject_id g) as [a|];
        [now exists a|discriminate]. }
    rewrite Ha.
    destruct (filter_unique_key s_id a (subjects d) Hs (Hgs g a Hg Ha))
      as [s0 ->].
    destruct (filter_unique_key u_id (g_owner_id g) (users d) Hu (Hgo g Hg))
      as [u0 ->].
    cbn. split; [reflexivity|]. split; [|assumption].
    repeat constructor.
  - replace (flat_map _ (filter _ (subjects d))) with (@nil match_group_row).
    + cbn. split; [reflexivity|]. split; [constructor|assumption].
    + symmetry. induction (filter _ (subjects d)) as [|s0 l IHl]; cbn;
        [reflexivity|].
      rewrite IHl, app_nil_r.
      induction (filter _ (users d)) as [|u0 l' IHl']; cbn; auto.
Qed.

(** On a store where every group refers to a stored subject and a stored
    owner, a group search for subject [s] that the store answers returns
    rows for exactly the wanted groups -- subject [s], and with a level
    asked for, that level or "mixed" -- newest first and at most 50 of
    them, the groups left out being no newer than any group returned. *)
Lemma findMatches_groups (user : claims) (q : match_query) (f : faults)
    (d : db) (s : Z) :
  mq_type q = Some "group" -> mq_subject_id q = Some s ->
  f 0%nat = false -> references_ok d ->
  exists rows rest,
    response_of (run (findMatches user q) f d) = Ok (json (JGroups rows))
    /\ Permutation (map mg_group rows ++ rest)
         (filter (wanted s (Js.or_null (mq_level q))) (groups d))
    /\ StronglySorted newer_or_equal rows
    /\ (List.length rows <= 50)%nat
    /\ (rest <> [] -> List.length rows = 50%nat)
    /\ (forall g r, In g rest -> In r rows ->
                    g_created_at g <= g_created_at (mg_group r))
    /\ Forall (fun r => mg_member_count r = member_count d (g_id (mg_group r)))
         rows.
Proof.
  intros Htype Hsubj Hf Href.
  destruct (match_group_rows_groups s (mq_level q) d Href) as [Hmap Hcount].
  pose proof (order_newest_first_perm (match_group_rows (Some s) (mq_level q) d))
    as Hperm.
  pose proof (order_newest_first_sorted
                (match_group_rows (Some s) (mq_level q) d)) as Hsorted.
  set (sorted := order_newest_first (match_group_rows (Some s) (mq_level q) d))
    in *.
  exists (firstn 50 sorted), (map mg_group (skipn 50 sorted)).
  rewrite <- (firstn_skipn 50 sorted) in Hsorted.
  apply StronglySorted_app_inv in Hsorted. destruct Hsorted as [Hs1 Hcross].
  split; [|split; [|split; [|split; [|split; [|split]]]]].
  - unfold findMatches. rewrite Htype, Hsubj.
    unfold_monad; simpl_world. rewrite Hf. reflexivity.
  - rewrite <- map_app, firstn_skipn.
    rewrite (Permutation_map mg_group Hperm), Hmap.
    erewrite filter_ext; [reflexivity|].
    intros g. apply group_matches_wanted.
  - exact Hs1.
  - apply firstn_le_length.
  - intros Hrest. rewrite length_firstn.
    destruct (skipn 50 sorted) as [|x l] eqn:E; [now elim Hrest|].
    assert (50 < List.length sorted)%nat; [|lia].
    destruct (Nat.lt_ge_cases 50 (List.length sorted)) as [Hlt|Hge]; auto.
    apply Nat.lt_eq_cases in Hge. destruct Hge as [Hge|Hge].
    + rewrite skipn_all2 in E by lia. discriminate.
    + rewrite skipn_all2 in E by lia. discriminate.
  - intros g r Hg Hr. apply in_map_iff in Hg. destruct Hg as (r' & <- & Hr').
    exact (Hcross r r' Hr Hr').
  - rewrite Forall_forall in Hcount |- *. intros r Hr. apply Hcount.
    apply (Permutation_in _ Hperm). fold sorted.
    rewrite <- (firstn_skipn 50 sorted). apply in_or_app. now left.
Qed.

Lemma references_ok_match_db : references_ok Sample.match_db.
Proof.
  split; cbn.
  - repeat constructor. intros [].
  - repeat constructor. intros [].
  - intros g a [<-|[<-|[<-|[]]]] [= <-]; now left.
  - intros g [<-|[<-|[<-|[]]]]; now left.
Defined.

Lemma findMatches_groups_on_match_db :
  references_ok Sample.match_db
  /\ exists rows rest,
       response_of
         (run (findMatches Sample.alice Sample.advanced_groups) no_faults
            Sample.match_db)
       = Ok (json (JGroups rows))
       /\ Permutation (map mg_group rows ++ rest)
            (filter (wanted 3 (Some "advanced")) (groups Sample.match_db))
       /\ StronglySorted newer_or_equal rows
       /\ (List.length rows <= 50)%nat.
Proof.
  split; [exact references_ok_match_db|].
  destruct (findMatches_groups Sample.alice Sample.advanced_groups no_faults
              Sample.match_db 3 eq_refl eq_refl eq_refl
              references_ok_match_db)
    as (rows & rest & Hresp & Hperm & Hsorted & Hlen & _).
  exists rows, rest. repeat split; assumption.
Defined.

(** The search for advanced groups of subject 3 in the sample store: the
    mixed group, newest, comes first with its two members; the beginner
    group is left out. *)
Lemma findMatches_groups_sample :
  match response_of
          (run (findMatches Sample.alice Sample.advanced_groups) no_faults
             Sample.match_db) with
  | Ok {| status := 200; body := JGroups rows |} =>
      map (fun r => (g_id (mg_group r), mg_member_count r)) rows
      = [(3, 2); (1, 1)]
  | _ => False
  end.
Proof. reflexivity. Qed.

(* ================================================================== *)
(** ** Memberships are unique *)

Lemma memberships_none_no_key (d : db) (gid uid : Z) :
  memberships d gid uid = [] ->
  ~ In (gid, uid) (map member_key (group_members d)).
Proof.
  unfold memberships. intros Hnone Hin.
  apply in_map_iff in Hin. destruct Hin as (m & Hk & Hm).
  assert (Hf : In m (filter (fun m => (gm_group_id m =? gid)
                                       && (gm_user_id m =? uid))
                        (group_members d))).
  { apply filter_In. split; [assumption|].
    unfold member_key in Hk. injection Hk as -> ->.
    now rewrite !Z.eqb_refl. }
  rewrite Hnone in Hf. contradiction.
Qed.

Lemma NoDup_snoc {A} (l : list A) (x : A) :
  NoDup l -> ~ In x l -> NoDup (l ++ [x]).
Proof.
  intros Hl Hx. apply NoDup_app.
  - assumption.
  - repeat constructor. intros [].
  - intros y Hy [<-|[]]. contradiction.
Qed.

Lemma well_keyed_with_group (d : db) (user : claims) (b : group_body)
    (cap : Z) :
  well_keyed d -> well_keyed (with_group d user b cap).
Proof.
  intros [Hnd Hg Hm]. split; cbn.
  - rewrite map_app; cbn. apply NoDup_snoc; [assumption|].
    intros Hin. apply in_map_iff in Hin. destruct Hin as (g & Heq & Hin).
    specialize (Hg g Hin). lia.
  - intros g Hin. apply in_app_or in Hin. destruct Hin as [Hin|[<-|[]]].
    + specialize (Hg g Hin). lia.
    + cbn. lia.
  - intros m Hin. specialize (Hm m Hin). lia.
Qed.

Lemma well_keyed_with_owner (d : db) (user : claims) (b : group_body)
    (cap : Z) :
  well_keyed d -> well_keyed (with_owner d user b cap).
Proof.
  intros Hk. pose proof (well_keyed_with_group d user b cap Hk) as [Hnd Hg Hm].
  split.
  - exact Hnd.
  - exact Hg.
  - cbn. intros m Hin. apply in_app_or in Hin. destruct Hin as [Hin|[<-|[]]].
    + pose proof (member_ids_issued d Hk m Hin). lia.
    + cbn. lia.
Qed.

Lemma well_keyed_joined (d : db) (gid uid : Z) (g : group_row)
    (rest : list group_row) :
  well_keyed d -> groups_by_id d gid = g :: rest ->
  well_keyed (joined d gid uid).
Proof.
  intros [Hnd Hg Hm] Hsel. apply groups_by_id_head in Hsel.
  destruct Hsel as [Hin <-]. split.
  - exact Hnd.
  - exact Hg.
  - cbn. intros m Hm'. apply in_app_or in Hm'.
    destruct Hm' as [Hm'|[<-|[]]]; [now apply Hm|].
    cbn. now apply Hg.
Qed.

Lemma members_distinct_with_owner (d : db) (user : claims) (b : group_body)
    (cap : Z) :
  well_keyed d -> members_distinct d -> members_distinct (with_owner d user b cap).
Proof.
  intros Hk Hd. unfold members_distinct; cbn. rewrite map_app; cbn.
  apply NoDup_snoc; [assumption|].
  intros Hin. apply in_map_iff in Hin. destruct Hin as (m & Heq & Hin).
  pose proof (member_ids_issued d Hk m Hin) as Hlt.
  unfold member_key in Heq. injection Heq as Hgid _. lia.
Qed.

Lemma members_distinct_joined (d : db) (gid uid : Z) :
  members_distinct d -> memberships d gid uid = [] ->
  members_distinct (joined d gid uid).
Proof.
  intros Hd Hnone. unfold members_distinct; cbn. rewrite map_app; cbn.
  apply NoDup_snoc; [assumption|]. now apply memberships_none_no_key.
Qed.

Lemma exec_keeps_members_distinct (o : op) (d : db) :
  well_keyed d -> members_distinct d ->
  Forall members_distinct (published (exec o d))
  /\ well_keyed (db_after (exec o d))
  /\ members_distinct (db_after (exec o d)).
Proof.
  intros Hk Hd. destruct o as [user b f|user id f]; cbn [exec].
  - assert (Hall : forall cap,
              well_keyed (with_group d user b cap)
              /\ well_keyed (with_owner d user b cap)
              /\ members_distinct (with_owner d user b cap)
              /\ members_distinct (with_group d user b cap)).
    { intros cap. split; [now apply well_keyed_with_group|].
      split; [now apply well_keyed_with_owner|].
      split; [now apply members_distinct_with_owner|exact Hd]. }
    destruct (createGroup_outcome user b f d)
      as [(_ & -> & -> & _)
         |[(cap & _ & _ & _ & -> & -> & _)|(cap & _ & _ & _ & -> & -> & _)]];
      [|destruct (Hall cap) as (Hk1 & Hk2 & Hd2 & Hd1)..].
    + split; [constructor|split; assumption].
    + split; [constructor; [assumption|constructor]|split; assumption].
    + split; [|split; assumption].
      constructor; [assumption|constructor; [assumption|constructor]].
  - destruct (join_outcome user id f d)
      as [(-> & -> & _)|(gid & g & rest & _ & Hsel & _ & Hnone & -> & -> & _)].
    + split; [constructor|split; assumption].
    + pose proof (well_keyed_joined d gid (c_id user) g rest Hk Hsel).
      pose proof (members_distinct_joined d gid (c_id user) Hd Hnone).
      split; [constructor; [assumption|constructor]|split; assumption].
Qed.

Lemma trace_keeps_members_distinct (ops : list op) :
  forall d, well_keyed d -> members_distinct d ->
            Forall members_distinct (trace d ops).
Proof.
  induction ops as [|o ops IH]; intros d Hk Hd; cbn [trace]; [constructor|].
  destruct (exec_keeps_members_distinct o d Hk Hd) as (Hpub & Hk' & Hd').
  apply Forall_app. split; [assumption|]. now apply IH.
Qed.

(** X1.  Whatever createGroup and join requests run one after the other, and
    whichever of their storage calls fail, no store state that becomes
    visible holds two membership rows for the same user in the same group,
    provided the first state holds none and its keys are well formed. *)
Theorem membership_unique_along_trace (d : db) (ops : list op) :
  well_keyed d -> members_distinct d ->
  Forall members_distinct (d :: trace d ops).
Proof.
  intros Hk Hd. constructor; [assumption|].
  now apply trace_keeps_members_distinct.
Qed.

Lemma well_keyed_empty_db : well_keyed empty_db.
Proof. exact (proj1 Inv_empty_db). Defined.

Lemma members_distinct_empty_db : members_distinct empty_db.
Proof. constructor. Defined.

Lemma membership_unique_along_trace_witness :
  Forall members_distinct
    (empty_db
     :: trace empty_db
          [CreateGroup Sample.alice Sample.pair no_faults;
           Join Sample.bob "1" no_faults;
           Join Sample.bob "1" no_faults;
           Join Sample.alice "1" Sample.second_call_fails]).
Proof.
  exact (membership_unique_along_trace empty_db _ well_keyed_empty_db
           members_distinct_empty_db).
Defined.

(* ================================================================== *)
(** ** Joining again, joining in turn *)

Lemma groups_by_id_joined (d : db) (gid uid gid' : Z) :
  groups_by_id (joined d gid uid) gid' = groups_by_id d gid'.
Proof. reflexivity. Qed.

Lemma memberships_joined (d : db) (gid uid uid' : Z) :
  memberships (joined d gid uid) gid uid'
  = (memberships d gid uid'
     ++ (if uid =? uid'
         then [{| gm_group_id := gid; gm_user_id := uid; gm_role := None |}]
         else []))%list.
Proof.
  unfold memberships, joined; cbn. rewrite filter_app; cbn.
  rewrite Z.eqb_refl; cbn. destruct (uid =? uid'); reflexivity.
Qed.

Lemma member_count_joined (d : db) (gid uid : Z) :
  member_count (joined d gid uid) gid = member_count d gid + 1.
Proof.
  unfold joined. rewrite member_count_added. cbn. now rewrite Z.eqb_refl.
Qed.

(** With no storage failure, a join that is admitted leaves the store with
    the caller's row added. *)
Lemma join_admitted (user : claims) (id : string) (d : db) (gid : Z)
    (g : group_row) (rest : list group_row) :
  Js.parseInt id = Some gid -> groups_by_id d gid = g :: rest ->
  member_count d gid < g_max_members g ->
  memberships d gid (c_id user) = [] ->
  response_of (run (join user id) no_faults d) = Ok (json JOk)
  /\ db_after (run (join user id) no_faults d) = joined d gid (c_id user).
Proof.
  intros Hp Hsel Hlt Hnone.
  assert (Hok : response_of (run (join user id) no_faults d) = Ok (json JOk)).
  { rewrite join_answer, Hp, Hsel, Hnone.
    destruct (member_count d gid >=? g_max_members g) eqn:E; [lia|].
    reflexivity. }
  split; [assumption|].
  destruct (join_outcome user id no_faults d)
    as [(_ & _ & Hne)|(gid' & _ & _ & Hp' & _ & _ & _ & Hdb & _)].
  - contradiction.
  - rewrite Hp in Hp'. injection Hp' as <-. exact Hdb.
Qed.

(** X2.  Once a join has been admitted, the same join sent again is never
    admitted, whatever storage calls fail, and leaves the store as the first
    join left it; with no failure it is answered 400, either
    "Group is full" or "Already a member". *)
Theorem join_again_is_rejected (user : claims) (id : string) (f f' : faults)
    (d : db) :
  response_of (run (join user id) f d) = Ok (json JOk) ->
  response_of (run (join user id) f' (db_after (run (join user id) f d)))
  <> Ok (json JOk)
  /\ db_after (run (join user id) f' (db_after (run (join user id) f d)))
     = db_after (run (join user id) f d)
  /\ (response_of
        (run (join user id) no_faults (db_after (run (join user id) f d)))
      = Ok (error 400 "Group is full")
      \/ response_of
           (run (join user id) no_faults (db_after (run (join user id) f d)))
         = Ok (error 400 "Already a member")).
Proof.
  intros Hok.
  destruct (join_outcome user id f d)
    as [(_ & _ & Hne)|(gid & g & rest & Hp & Hsel & _ & _ & -> & _)];
    [contradiction|].
  assert (Hmem : memberships (joined d gid (c_id user)) gid (c_id user) <> []).
  { rewrite memberships_joined, Z.eqb_refl. intros E.
    apply app_eq_nil in E. destruct E as [_ E]. discriminate. }
  assert (Hno : response_of (run (join user id) f' (joined d gid (c_id user)))
                <> Ok (json JOk)).
  { destruct (join_outcome user id f' (joined d gid (c_id user)))
      as [(_ & _ & Hne)|(gid' & _ & _ & Hp' & _ & _ & Hnone & _)];
      [assumption|].
    rewrite Hp in Hp'. injection Hp' as <-. contradiction. }
  split; [exact Hno|]. split.
  - destruct (join_outcome user id f' (joined d gid (c_id user)))
      as [(Hdb & _)|(_ & _ & _ & _ & _ & _ & _ & _ & _ & Hyes)];
      [assumption|contradiction].
  - rewrite join_answer, Hp, groups_by_id_joined, Hsel.
    destruct (member_count (joined d gid (c_id user)) gid >=? g_max_members g);
      [now left|right].
    destruct (memberships (joined d gid (c_id user)) gid (c_id user));
      [contradiction|reflexivity].
Qed.

Lemma join_again_is_rejected_witness :
  response_of
    (run (join Sample.bob "1") no_faults
       (db_after (run (join Sample.bob "1") no_faults Fixture.club_db)))
  <> Ok (json JOk).
Proof.
  exact (proj1 (join_again_is_rejected Sample.bob "1" no_faults no_faults
                  Fixture.club_db eq_refl)).
Defined.

Lemma join_each_full (users : list claims) (id : string) (d : db) (gid : Z)
    (g : group_row) (rest : list group_row) :
  Js.parseInt id = Some gid -> groups_by_id d gid = g :: rest ->
  g_max_members g <= member_count d gid ->
  join_each users id d
  = (repeat (Ok (error 400 "Group is full")) (List.length users), d).
Proof.
  intros Hp Hsel Hfull. induction users as [|u users IH]; [reflexivity|].
  cbn [join_each List.length repeat].
  assert (Hresp : response_of (run (join u id) no_faults d)
                  = Ok (error 400 "Group is full")).
  { rewrite join_answer, Hp, Hsel.
    destruct (member_count d gid >=? g_max_members g) eqn:E; [reflexivity|lia]. }
  assert (Hdb : db_after (run (join u id) no_faults d) = d).
  { destruct (join_outcome u id no_faults d)
      as [(E & _)|(_ & _ & _ & _ & _ & _ & _ & _ & _ & E)]; [exact E|].
    rewrite Hresp in E. discriminate. }
  rewrite Hdb, IH, Hresp. reflexivity.
Qed.

(** X3.  Users who are not members yet join one group in turn, with no
    storage failure: as many of them as there are free seats are admitted,
    in order, every later one is answered 400 "Group is full", and the group
    ends with that many more members. *)
Theorem join_each_fills_free_seats (users : list claims) (id : string)
    (d : db) (gid : Z) (g : group_row) (rest : list group_row) :
  Js.parseInt id = Some gid -> groups_by_id d gid = g :: rest ->
  NoDup (map c_id users) ->
  (forall u, In u users -> memberships d gid (c_id u) = []) ->
  fst (join_each users id d)
  = (repeat (Ok (json JOk))
       (Nat.min (List.length users)
          (Z.to_nat (g_max_members g - member_count d gid)))
     ++ repeat (Ok (error 400 "Group is full"))
          (List.length users
           - Z.to_nat (g_max_members g - member_count d gid)))%list
  /\ member_count (snd (join_each users id d)) gid
     = member_count d gid
       + Z.of_nat (Nat.min (List.length users)
                     (Z.to_nat (g_max_members g - member_count d gid))).
Proof.
  intros Hp. revert d. induction users as [|u users IH]; intros d Hsel Hnd Hnew.
  { cbn. split; [reflexivity|lia]. }
  destruct (Z_lt_le_dec (member_count d gid) (g_max_members g)) as [Hfree|Hfull].
  - destruct (join_admitted u id d gid g rest Hp Hsel Hfree
                (Hnew u (or_introl eq_refl))) as [Hok Hdb].
    inversion Hnd as [|? ? Hu Hnd']; subst.
    assert (Hnew' : forall u', In u' users ->
              memberships (joined d gid (c_id u)) gid (c_id u') = []).
    { intros u' Hin. rewrite memberships_joined, (Hnew u' (or_intror Hin)).
      destruct (Z.eqb_spec (c_id u) (c_id u')) as [E|E]; [|reflexivity].
      exfalso. apply Hu. rewrite E. now apply in_map. }
    specialize (IH (joined d gid (c_id u)) Hsel Hnd' Hnew').
    rewrite member_count_joined in IH.
    cbn [join_each]. rewrite Hdb, Hok.
    destruct (join_each users id (joined d gid (c_id u))) as [answers d'].
    cbn [fst snd] in *. destruct IH as [IHa IHc]. rewrite IHa, IHc.
    cbn [List.length].
    replace (Z.to_nat (g_max_members g - member_count d gid))
      with (S (Z.to_nat (g_max_members g - (member_count d gid + 1))))
      by lia.
    cbn [Nat.min Nat.sub repeat app]. split; [reflexivity|lia].
  - rewrite (join_each_full (u :: users) id d gid g rest Hp Hsel Hfull).
    replace (Z.to_nat (g_max_members g - member_count d gid)) with 0%nat
      by lia.
    rewrite Nat.min_0_r, Nat.sub_0_r. cbn [fst snd repeat app]. split; [reflexivity|lia].
Qed.

Lemma join_each_fills_free_seats_witness :
  fst (join_each [Sample.bob; Fixture.carol] "1" Fixture.club_db)
  = [Ok (json JOk); Ok (error 400 "Group is full")]
  /\ member_count (snd (join_each [Sample.bob; Fixture.carol] "1"
                          Fixture.club_db)) 1
     = 2.
Proof.
  assert (Hnd : NoDup (map c_id [Sample.bob; Fixture.carol])).
  { repeat constructor; cbn; intuition discriminate. }
  assert (Hnew : forall u, In u [Sample.bob; Fixture.carol] ->
                           memberships Fixture.club_db 1 (c_id u) = []).
  { intros u [<-|[<-|[]]]; reflexivity. }
  exact (join_each_fills_free_seats [Sample.bob; Fixture.carol] "1"
           Fixture.club_db 1 _ [] eq_refl eq_refl Hnd Hnew).
Defined.

(* ================================================================== *)
(** ** A new group *)

(** X4.  When both statements of a createGroup request succeed on a store
    with well-formed keys -- the store could read the capacity and neither
    call failed -- the answer is 201 with the id the counter hands out,
    exactly one group has that id, it is owned by the caller with the level
    and capacity of the request ("mixed" and 10 when these are absent, 10
    also for a capacity of 0, and for a capacity given as text the integer
    the store reads from it), and its only member is the caller, with role
    "owner". *)
Theorem createGroup_owner_is_only_member (user : claims) (b : group_body)
    (f : faults) (d : db) (cap : Z) :
  well_keyed d -> capacity_of b = Some cap ->
  f 0%nat = false -> f 1%nat = false ->
  response_of (run (createGroup user b) f d)
  = Ok {| status := 201; body := JOkGroup (groups_seq d) |}
  /\ (exists g,
        groups_by_id (db_after (run (createGroup user b) f d)) (groups_seq d)
        = [g]
        /\ g_owner_id g = c_id user
        /\ g_title g = gb_title b
        /\ g_subject_id g = gb_subject_id b
        /\ (gb_level b = None -> g_level g = "mixed")
        /\ (forall l, gb_level b = Some l -> l <> "" -> g_level g = l)
        /\ (gb_max_members b = Js.Undefined \/ gb_max_members b = Js.Number 0 ->
            g_max_members g = 10)
        /\ (forall n, gb_max_members b = Js.Number n -> n <> 0 ->
                      g_max_members g = n)
        /\ (forall t, gb_max_members b = Js.Str t -> t <> "" ->
                      Js.read_integer t = Some (g_max_members g))
        /\ g_max_members g = cap)
  /\ filter (fun m => gm_group_id m =? groups_seq d)
       (group_members (db_after (run (createGroup user b) f d)))
     = [{| gm_group_id := groups_seq d; gm_user_id := c_id user;
           gm_role := Some "owner" |}]
  /\ member_count (db_after (run (createGroup user b) f d)) (groups_seq d) = 1.
Proof.
  intros Hk Hcap H0 H1.
  destruct (createGroup_outcome user b f d)
    as [([E|E] & _)
       |[(cap' & _ & _ & E & _)|(cap' & Hcap' & _ & _ & Hdb & _ & Hresp)]];
    try congruence.
  assert (cap' = cap) as -> by congruence.
  rewrite Hdb, Hresp. clear Hdb Hresp.
  assert (Hnone : filter (fun m => gm_group_id m =? groups_seq d)
                    (group_members d) = []).
  { pose proof (fresh_group_has_no_members d Hk) as Hz.
    unfold member_count in Hz.
    destruct (filter _ (group_members d)); [reflexivity|cbn in Hz; lia]. }
  split; [reflexivity|]. split; [|split].
  - eexists. split.
    + unfold groups_by_id; cbn. rewrite filter_app; cbn.
      rewrite Z.eqb_refl.
      rewrite (filter_no_key g_id (groups_seq d) (groups d)); [reflexivity|].
      intros Hin. apply in_map_iff in Hin. destruct Hin as (g & Heq & Hin).
      pose proof (group_ids_issued d Hk g Hin). lia.
    + cbn. unfold capacity_of, Js.or_value in Hcap. repeat split.
      * intros ->. reflexivity.
      * intros l -> Hl. cbn. destruct (String.eqb_spec l ""); easy.
      * intros [E|E]; rewrite E in Hcap; cbn in Hcap; congruence.
      * intros n E Hn. rewrite E in Hcap. cbn in Hcap.
        destruct (Z.eqb_spec n 0); [contradiction|]. cbn in Hcap. congruence.
      * intros t E Ht. rewrite E in Hcap. cbn in Hcap.
        destruct (String.eqb_spec t ""); [contradiction|]. exact Hcap.
  - cbn. rewrite filter_app, Hnone; cbn. now rewrite Z.eqb_refl.
  - unfold member_count; cbn. rewrite filter_app, Hnone; cbn.
    now rewrite Z.eqb_refl.
Qed.

Lemma createGroup_owner_is_only_member_witness :
  response_of (run (createGroup Sample.alice Sample.pair) no_faults empty_db)
  = Ok {| status := 201; body := JOkGroup 1 |}
  /\ member_count
       (db_after (run (createGroup Sample.alice Sample.pair) no_faults
                    empty_db)) 1
     = 1.
Proof.
  destruct (createGroup_owner_is_only_member Sample.alice Sample.pair
              no_faults empty_db 2 well_keyed_empty_db eq_refl eq_refl
              eq_refl)
    as (Hresp & _ & _ & Hcount).
  split; [exact Hresp|exact Hcount].
Defined.

(* ================================================================== *)
(** ** Searching: what a row stands for *)

Lemma firstn_incl {A} (n : nat) (l : list A) (x : A) :
  In x (firstn n l) -> In x l.
Proof.
  intros Hin. rewrite <- (firstn_skipn n l). apply in_or_app. now left.
Qed.

Lemma In_firstn_or_full {A} (n : nat) (l : list A) (x : A) :
  In x l -> In x (firstn n l) \/ List.length (firstn n l) = n.
Proof.
  intros Hin. destruct (Nat.le_gt_cases (List.length l) n) as [Hle|Hgt].
  - left. now rewrite firstn_all2.
  - right. apply firstn_length_le. lia.
Qed.

(** X5.  Whatever the store holds, every row a group search returns stands
    for a stored group of the subject asked for, whose level passes the
    level filter, whose subject row and owner row are stored -- the names in
    the row are theirs -- and the row carries the group's member count.  A
    group whose subject or owner is missing is never returned. *)
Theorem findMatches_groups_rows_are_sound (user : claims) (q : match_query)
    (f : faults) (d : db) (rows : list match_group_row) :
  mq_type q = Some "group" ->
  response_of (run (findMatches user q) f d) = Ok (json (JGroups rows)) ->
  (List.length rows <= 50)%nat
  /\ forall r, In r rows ->
       In (mg_group r) (groups d)
       /\ group_matches (mq_subject_id q) (mq_level q) (mg_group r) = true
       /\ g_subject_id (mg_group r) = mq_subject_id q
       /\ (exists s, In s (subjects d)
                     /\ g_subject_id (mg_group r) = Some (s_id s)
                     /\ mg_subject_name r = s_name s)
       /\ (exists u, In u (users d)
                     /\ u_id u = g_owner_id (mg_group r)
                     /\ mg_owner_name r = u_display_name u)
       /\ mg_member_count r = member_count d (g_id (mg_group r)).
Proof.
  intros Htype. unfold findMatches. rewrite Htype.
  unfold_monad; simpl_world. step_fault f; [cbn; discriminate|].
  intros [= <-]. unfold select_match_groups.
  split; [apply firstn_le_length|].
  intros r Hr. apply firstn_incl in Hr.
  apply (Permutation_in _ (order_newest_first_perm _)) in Hr.
  unfold match_group_rows in Hr.
  apply in_flat_map in Hr. destruct Hr as (g & Hg & Hr).
  apply in_flat_map in Hr. destruct Hr as (s & Hs & Hr).
  apply in_flat_map in Hr. destruct Hr as (u & Hu & Hr).
  apply filter_In in Hs. destruct Hs as [Hs Hsid].
  apply filter_In in Hu. destruct Hu as [Hu Huid].
  destruct (group_matches (mq_subject_id q) (mq_level q) g) eqn:E;
    [|contradiction].
  destruct Hr as [<-|[]]. cbn.
  destruct (g_subject_id g) as [a|] eqn:Ha; [|discriminate].
  split; [assumption|]. split; [assumption|]. split.
  { unfold group_matches in E. rewrite Ha in E.
    destruct (mq_subject_id q) as [b|]; [|discriminate].
    apply andb_prop in E. destruct E as [E _]. f_equal. lia. }
  split; [exists s; repeat split; auto; f_equal; lia|].
  split; [exists u; repeat split; auto; lia|reflexivity].
Qed.

Lemma findMatches_groups_rows_are_sound_witness :
  Forall (fun r =>
            In (mg_group r) (groups Sample.match_db)
            /\ mg_member_count r
               = member_count Sample.match_db (g_id (mg_group r)))
    (select_match_groups (Some 3) (Some "advanced") Sample.match_db).
Proof.
  apply Forall_forall. intros r Hr.
  destruct (proj2 (findMatches_groups_rows_are_sound Sample.alice
                     Sample.advanced_groups no_faults Sample.match_db
                     (select_match_groups (Some 3) (Some "advanced")
                        Sample.match_db)
                     eq_refl eq_refl) r Hr)
    as (Hin & _ & _ & _ & _ & Hcount).
  split; [exact Hin|exact Hcount].
Defined.

Ltac peel_char t :=
  destruct t as [|[[] [] [] [] [] [] [] []] t]; try reflexivity.

(** Any [type] but "group" selects the user mode. *)
Lemma findMatches_user_mode (user : claims) (q : match_query) :
  mq_type q <> Some "group" ->
  findMatches user q
  = try_catch
      (rows <- pool_read MatchUsers
                 (fun d => Ok (select_match_users (mq_subject_id q)
                                 (mq_level q) d)) ;;
       ret (json (JUsers rows)))
      (ret (error 500 "Failed to fetch matches")).
Proof.
  intros Hne. unfold findMatches.
  destruct (mq_type q) as [t|]; [|reflexivity].
  peel_char t. peel_char t. peel_char t. peel_char t. peel_char t.
  destruct t; [now elim Hne|reflexivity].
Qed.

Lemma left_join_profiles (d : db) (uid : Z) (bio : option string) :
  In bio (match filter (fun p => p_user_id p =? uid) (profiles d) with
          | [] => [None]
          | ps => map p_bio ps
          end) ->
  bio_of d uid bio.
Proof.
  destruct (filter _ (profiles d)) as [|p ps] eqn:E.
  - intros [<-|[]]. right. split; [|reflexivity].
    intros p Hp Hid.
    assert (Hin : In p (filter (fun p => p_user_id p =? uid) (profiles d)))
      by (apply filter_In; split; [assumption|lia]).
    rewrite E in Hin. contradiction.
  - intros Hin. apply in_map_iff in Hin. destruct Hin as (p' & <- & Hp').
    rewrite <- E in Hp'. apply filter_In in Hp'. destruct Hp' as [Hp' Hid].
    left. exists p'. repeat split; [assumption|lia].
Qed.

(** X6.  A search with any [type] other than "group" that the store answers
    returns at most 50 user rows.  Every row stands for a stored
    user-subject row of the subject asked for (and of exactly the level
    asked for, when one is), joined with its stored user and subject; its
    bio is that of a stored profile of the user, or NULL when the user has
    no profile.  Every such combination is returned unless the cap of 50
    rows is reached. *)
Theorem findMatches_users (user : claims) (q : match_query) (f : faults)
    (d : db) :
  mq_type q <> Some "group" -> f 0%nat = false ->
  exists rows,
    response_of (run (findMatches user q) f d) = Ok (json (JUsers rows))
    /\ (List.length rows <= 50)%nat
    /\ (forall r, In r rows ->
          exists us u s,
            In us (user_subjects d) /\ In u (users d) /\ In s (subjects d)
            /\ u_id u = us_user_id us /\ s_id s = us_subject_id us
            /\ mq_subject_id q = Some (us_subject_id us)
            /\ (Js.truthy (mq_level q) = true ->
                us_level us = Js.or_else (mq_level q) "")
            /\ mu_id r = u_id u /\ mu_display_name r = u_display_name u
            /\ mu_level r = us_level us /\ mu_subject_name r = s_name s
            /\ bio_of d (u_id u) (mu_bio r))
    /\ (forall us u s,
          In us (user_subjects d) -> In u (users d) -> In s (subjects d) ->
          u_id u = us_user_id us -> s_id s = us_subject_id us ->
          mq_subject_id q = Some (us_subject_id us) ->
          (Js.truthy (mq_level q) = true ->
           us_level us = Js.or_else (mq_level q) "") ->
          (exists r, In r rows /\ mu_id r = u_id u
                     /\ mu_level r = us_level us
                     /\ mu_subject_name r = s_name s)
          \/ List.length rows = 50%nat).
Proof.
  intros Htype Hf. rewrite (findMatches_user_mode user q Htype).
  unfold_monad; simpl_world. rewrite Hf. simpl_world.
  eexists. split; [reflexivity|]. unfold select_match_users.
  split; [apply firstn_le_length|]. split.
  - intros r Hr. apply firstn_incl in Hr.
    apply in_flat_map in Hr. destruct Hr as (us & Hus & Hr).
    apply in_flat_map in Hr. destruct Hr as (u & Hu & Hr).
    apply in_flat_map in Hr. destruct Hr as (bio & Hbio & Hr).
    apply in_flat_map in Hr. destruct Hr as (s & Hs & Hr).
    apply filter_In in Hu. destruct Hu as [Hu Huid].
    apply filter_In in Hs. destruct Hs as [Hs Hsid].
    apply left_join_profiles in Hbio.
    destruct (mq_subject_id q) as [a|]; [|contradiction].
    destruct (us_subject_id us =? a) eqn:Ea; [|contradiction].
    cbn [andb] in Hr.
    exists us, u, s.
    destruct (Js.truthy (mq_level q)) eqn:El.
    + destruct (String.eqb_spec (us_level us) (Js.or_else (mq_level q) ""))
        as [El'|El']; [|contradiction].
      destruct Hr as [<-|[]]. cbn.
      repeat split; auto; try lia. f_equal; lia.
    + destruct Hr as [<-|[]]. cbn.
      repeat split; auto; try lia; try discriminate. f_equal; lia.
  - intros us u s Hus Hu Hs Huid Hsid Hsub Hlev.
    set (plist := match filter (fun p => p_user_id p =? u_id u) (profiles d)
                  with
                  | [] => [None]
                  | ps => map p_bio ps
                  end).
    assert (Hbio : exists bio, In bio plist).
    { unfold plist. destruct (filter _ (profiles d)) as [|p ps].
      - exists None. now left.
      - exists (p_bio p). now left. }
    destruct Hbio as [bio Hbio].
    match goal with
    | |- (exists r, In r (firstn 50 ?l) /\ _) \/ _ =>
        destruct (In_firstn_or_full 50 l
                    {| mu_id := u_id u; mu_display_name := u_display_name u;
                       mu_bio := bio; mu_level := us_level us;
                       mu_subject_name := s_name s |}) as [Hin|Hfull]
    end.
    + apply in_flat_map. exists us. split; [assumption|].
      apply in_flat_map. exists u. split;
        [apply filter_In; split; [assumption|lia]|].
      apply in_flat_map. exists bio. split; [exact Hbio|].
      apply in_flat_map. exists s. split;
        [apply filter_In; split; [assumption|lia]|].
      rewrite Hsub, Z.eqb_refl. cbn [andb].
      destruct (Js.truthy (mq_level q)).
      * rewrite (Hlev eq_refl), String.eqb_refl. now left.
      * now left.
    + left. eexists. split; [exact Hin|]. cbn. repeat split.
    + now right.
Qed.

Lemma findMatches_users_witness :
  exists rows,
    response_of
      (run (findMatches Sample.alice Fixture.find_users) no_faults
         Fixture.people_db)
    = Ok (json (JUsers rows))
    /\ (List.length rows <= 50)%nat.
Proof.
  destruct (findMatches_users Sample.alice Fixture.find_users no_faults
              Fixture.people_db ltac:(discriminate) eq_refl)
    as (rows & Hresp & Hlen & _).
  exists rows. split; assumption.
Defined.

(** In the sample store Alice is listed with her bio and Bob, who has no
    profile, with none. *)
Lemma findMatches_users_sample :
  match response_of
          (run (findMatches Sample.alice Fixture.find_users) no_faults
             Fixture.people_db) with
  | Ok {| status := 200; body := JUsers rows |} =>
      map (fun r => (mu_id r, mu_bio r)) rows
      = [(1, Some "Student"); (2, None)]
  | _ => False
  end.
Proof. reflexivity. Qed.

(* ================================================================== *)
(** ** Listing messages *)

Lemma insert_oldest_first_perm (r : message_view) (l : list message_view) :
  Permutation (insert_oldest_first r l) (r :: l).
Proof.
  induction l as [|x l IH]; cbn; [reflexivity|].
  destruct (m_sent_at (mv_message x) <=? m_sent_at (mv_message r)).
  - rewrite IH. apply perm_swap.
  - reflexivity.
Qed.

Lemma order_oldest_first_perm (l : list message_view) :
  Permutation (order_oldest_first l) l.
Proof.
  induction l as [|r l IH]; cbn; [reflexivity|].
  rewrite insert_oldest_first_perm. now constructor.
Qed.

Lemma insert_oldest_first_sorted (r : message_view) (l : list message_view) :
  StronglySorted older_or_equal l ->
  StronglySorted older_or_equal (insert_oldest_first r l).
Proof.
  induction l as [|x l IH]; cbn; intros Hs.
  - repeat constructor.
  - inversion Hs as [|? ? Hl Hx]; subst.
    destruct (m_sent_at (mv_message x) <=? m_sent_at (mv_message r)) eqn:E.
    + constructor; [now apply IH|].
      rewrite Forall_forall. intros y Hy.
      apply (Permutation_in _ (insert_oldest_first_perm r l)) in Hy.
      destruct Hy as [<-|Hy]; [unfold older_or_equal; lia|].
      rewrite Forall_forall in Hx. now apply Hx.
    + constructor; [assumption|].
      constructor; [unfold older_or_equal; lia|].
      rewrite Forall_forall in Hx |- *. intros y Hy.
      specialize (Hx y Hy). unfold older_or_equal in *. lia.
Qed.

Lemma order_oldest_first_sorted (l : list message_view) :
  StronglySorted older_or_equal (order_oldest_first l).
Proof.
  induction l as [|r l IH]; cbn; [constructor|].
  now apply insert_oldest_first_sorted.
Qed.

Lemma listMessages_answer (user : claims) (id : string) (f : faults) (d : db)
    (gid : Z) :
  Js.parseInt id = Some gid -> f 0%nat = false ->
  response_of (run (listMessages user id) f d)
  = Ok (json (JMessages
                (firstn 200 (order_oldest_first (message_rows gid d))))).
Proof.
  intros Hp Hf. unfold listMessages. rewrite Hp.
  unfold_monad; simpl_world. rewrite Hf. reflexivity.
Qed.

(** X7.  A message listing that the store answers returns at most 200 rows,
    oldest first; every row is a stored message of the group asked for,
    with the display name of its stored author, and the messages left out
    are no older than any message returned. *)
Theorem listMessages_rows (user : claims) (id : string) (f : faults) (d : db)
    (gid : Z) :
  Js.parseInt id = Some gid -> f 0%nat = false ->
  exists rows rest,
    response_of (run (listMessages user id) f d) = Ok (json (JMessages rows))
    /\ Permutation (rows ++ rest) (message_rows gid d)
    /\ (List.length rows <= 200)%nat
    /\ (rest <> [] -> List.length rows = 200%nat)
    /\ StronglySorted older_or_equal rows
    /\ (forall r r', In r rows -> In r' rest -> older_or_equal r r')
    /\ (forall r, In r rows ->
          In (mv_message r) (group_messages d)
          /\ m_group_id (mv_message r) = gid
          /\ exists u, In u (users d)
                       /\ u_id u = m_user_id (mv_message r)
                       /\ mv_display_name r = u_display_name u).
Proof.
  intros Hp Hf.
  pose proof (order_oldest_first_perm (message_rows gid d)) as Hperm.
  pose proof (order_oldest_first_sorted (message_rows gid d)) as Hsorted.
  set (sorted := order_oldest_first (message_rows gid d)) in *.
  exists (firstn 200 sorted), (skipn 200 sorted).
  rewrite <- (firstn_skipn 200 sorted) in Hsorted.
  apply StronglySorted_app_inv in Hsorted. destruct Hsorted as [Hs1 Hcross].
  split; [exact (listMessages_answer user id f d gid Hp Hf)|].
  split; [now rewrite firstn_skipn|].
  split; [apply firstn_le_length|]. split.
  { intros Hrest. apply firstn_length_le.
    destruct (Nat.le_gt_cases 200 (List.length sorted)) as [Hle|Hgt]; auto.
    rewrite skipn_all2 in Hrest by lia. now elim Hrest. }
  split; [exact Hs1|]. split; [exact Hcross|].
  intros r Hr. apply firstn_incl in Hr.
  apply (Permutation_in _ Hperm) in Hr. unfold message_rows in Hr.
  apply in_flat_map in Hr. destruct Hr as (m & Hm & Hr).
  apply in_flat_map in Hr. destruct Hr as (u & Hu & Hr).
  apply filter_In in Hu. destruct Hu as [Hu Huid].
  destruct (Z.eqb_spec (m_group_id m) gid) as [Hg|Hg]; [|contradiction].
  destruct Hr as [<-|[]]. cbn.
  split; [assumption|]. split; [assumption|].
  exists u. repeat split; [assumption|lia].
Qed.

Lemma listMessages_rows_witness :
  exists rows,
    response_of
      (run (listMessages Sample.bob "1") no_faults
         (db_after (run (postMessage Sample.bob "1" (Some "hello")) no_faults
                      Fixture.club_db)))
    = Ok (json (JMessages rows))
    /\ (List.length rows <= 200)%nat.
Proof.
  destruct (listMessages_rows Sample.bob "1" no_faults
              (db_after (run (postMessage Sample.bob "1" (Some "hello"))
                           no_faults Fixture.club_db))
              1 eq_refl eq_refl)
    as (rows & rest & Hresp & _ & Hlen & _).
  exists rows. split; assumption.
Defined.

(** X8.  The two message routes do not check that the path parameter is a
    number.  When it does not parse, listing is answered 500
    "Failed to fetch messages" and posting a non-empty text is answered 500
    "Failed to post message"; each makes one storage call and the store is
    unchanged. *)
Theorem message_routes_unparsable_id (user : claims) (id : string)
    (text : string) (f : faults) (d : db) :
  Js.parseInt id = None -> text <> "" ->
  (response_of (run (listMessages user id) f d)
   = Ok (error 500 "Failed to fetch messages")
   /\ calls_of (run (listMessages user id) f d) = [PoolQuery SelectMessages]
   /\ db_after (run (listMessages user id) f d) = d)
  /\ (response_of (run (postMessage user id (Some text)) f d)
      = Ok (error 500 "Failed to post message")
      /\ calls_of (run (postMessage user id (Some text)) f d)
         = [PoolQuery InsertMessage]
      /\ db_after (run (postMessage user id (Some text)) f d) = d).
Proof.
  intros Hp Hne. split.
  - unfold listMessages. rewrite Hp. unfold_monad; simpl_world.
    step_fault f; repeat split.
  - unfold postMessage, Js.falsy, Js.truthy. rewrite Hp.
    destruct (String.eqb_spec text ""); [contradiction|]. cbn [negb].
    unfold_monad; simpl_world. step_fault f; repeat split.
Qed.

Lemma message_routes_unparsable_id_witness :
  response_of (run (listMessages Sample.bob "abc") no_faults Fixture.club_db)
  = Ok (error 500 "Failed to fetch messages")
  /\ response_of
       (run (postMessage Sample.bob "abc" (Some "hello")) no_faults
          Fixture.club_db)
     = Ok (error 500 "Failed to post message").
Proof.
  destruct (message_routes_unparsable_id Sample.bob "abc" "hello" no_faults
              Fixture.club_db eq_refl ltac:(discriminate))
    as [(H1 & _) (H2 & _)].
  split; [exact H1|exact H2].
Defined.

Lemma message_rows_posted (d : db) (gid uid : Z) (text : string)
    (u : user_row) :
  In u (users d) -> u_id u = uid -> NoDup (map u_id (users d)) ->
  message_rows gid
    (set_group_messages d
       (group_messages d
        ++ [{| m_id := messages_seq d; m_group_id := gid; m_user_id := uid;
               m_message := text; m_sent_at := now d |}])
       (messages_seq d + 1))
  = (message_rows gid d
     ++ [{| mv_message := {| m_id := messages_seq d; m_group_id := gid;
                             m_user_id := uid; m_message := text;
                             m_sent_at := now d |};
            mv_display_name := u_display_name u |}])%list.
Proof.
  intros Hu Hid Hnd. unfold message_rows; cbn.
  rewrite flat_map_app; cbn. f_equal.
  destruct (filter_unique_key u_id uid (users d) Hnd) as [a Ha].
  { rewrite <- Hid. now apply in_map. }
  assert (Hin : In u (filter (fun y => u_id y =? uid) (users d)))
    by (apply filter_In; split; [assumption|lia]).
  rewrite Ha in Hin |- *. destruct Hin as [->|[]]. cbn.
  now rewrite Z.eqb_refl.
Qed.

(** X9.  A message posted by a stored user shows up in the listing of its
    group, with the author's display name, as long as the group had fewer
    than 200 listed messages before; the listing grows by one row. *)
Theorem posted_message_is_listed (user reader : claims) (id text : string)
    (f f' : faults) (d : db) (gid : Z) (u : user_row) :
  Js.parseInt id = Some gid -> text <> "" ->
  f 0%nat = false -> f' 0%nat = false ->
  In u (users d) -> u_id u = c_id user -> NoDup (map u_id (users d)) ->
  (List.length (message_rows gid d) < 200)%nat ->
  exists rows,
    response_of
      (run (listMessages reader id) f'
         (db_after (run (postMessage user id (Some text)) f d)))
    = Ok (json (JMessages rows))
    /\ In {| mv_message := {| m_id := messages_seq d; m_group_id := gid;
                              m_user_id := c_id user; m_message := text;
                              m_sent_at := now d |};
             mv_display_name := u_display_name u |} rows
    /\ List.length rows = S (List.length (message_rows gid d)).
Proof.
  intros Hp Hne Hf Hf' Hu Hid Hnd Hlen.
  assert (Hdb : db_after (run (postMessage user id (Some text)) f d)
                = set_group_messages d
                    (group_messages d
                     ++ [{| m_id := messages_seq d; m_group_id := gid;
                            m_user_id := c_id user; m_message := text;
                            m_sent_at := now d |}])
                    (messages_seq d + 1)).
  { unfold postMessage, Js.falsy, Js.truthy. rewrite Hp.
    destruct (String.eqb_spec text ""); [contradiction|]. cbn [negb].
    unfold_monad; simpl_world. rewrite Hf. cbn.
    destruct (String.eqb_spec text ""); [contradiction|reflexivity]. }
  rewrite Hdb. eexists.
  split; [exact (listMessages_answer reader id f' _ gid Hp Hf')|].
  rewrite (message_rows_posted d gid (c_id user) text u Hu Hid Hnd).
  match goal with
  | |- In ?x (firstn 200 (order_oldest_first ?l)) /\ _ =>
      pose proof (order_oldest_first_perm l) as Hperm;
      assert (Hall : List.length (order_oldest_first l)
                     = S (List.length (message_rows gid d)))
  end.
  { rewrite (Permutation_length Hperm), length_app. cbn. lia. }
  rewrite firstn_all2 by lia. split; [|exact Hall].
  apply (Permutation_in _ (Permutation_sym Hperm)).
  apply in_or_app. right. now left.
Qed.

Lemma posted_message_is_listed_witness :
  exists rows,
    response_of
      (run (listMessages Sample.alice "1") no_faults
         (db_after (run (postMessage Sample.bob "1" (Some "hello")) no_faults
                      Fixture.club_db)))
    = Ok (json (JMessages rows))
    /\ In {| mv_message := {| m_id := 1; m_group_id := 1; m_user_id := 2;
                              m_message := "hello"; m_sent_at := 0 |};
             mv_display_name := "Bob" |} rows.
Proof.
  assert (Hnd : NoDup (map u_id (users Fixture.club_db))).
  { repeat constructor; cbn; intuition discriminate. }
  destruct (posted_message_is_listed Sample.bob Sample.alice "1" "hello"
              no_faults no_faults Fixture.club_db 1 Fixture.bob_row
              eq_refl ltac:(discriminate) eq_refl eq_refl
              (or_intror (or_introl eq_refl)) eq_refl Hnd
              ltac:(cbn; lia))
    as (rows & Hresp & Hin & _).
  exists rows. split; assumption.
Defined.

(* ================================================================== *)
(** ** Registration, login and tokens *)

Lemma users_by_email_none (d : db) (e : string) :
  users_by_email d e = [] -> ~ In e (map u_email (users d)).
Proof.
  intros Hnone Hin. apply in_map_iff in Hin. destruct Hin as (u & He & Hu).
  destruct (users_by_email_present d e u Hu He) as (x & rest & Hsel).
  congruence.
Qed.

Section AccountFacts.

Context `{Crypto}.

(** A register request either leaves the store alone and does not answer
    201, or it carried three non-empty fields and an e-mail address nobody
    had, and appended one user. *)
Lemma register_outcome (b : register_body) (f : faults) (d : db) :
  (db_after (run (register b) f d) = d
   /\ published (run (register b) f d) = []
   /\ status_of_register_is_not_201 (response_of (run (register b) f d)))
  \/ (exists e p n,
        rb_email b = Some e /\ rb_password b = Some p
        /\ rb_display_name b = Some n
        /\ e <> "" /\ p <> "" /\ n <> ""
        /\ users_by_email d e = []
        /\ f 0%nat = false /\ f 1%nat = false
        /\ db_after (run (register b) f d)
           = set_users d
               (users d ++ [{| u_id := users_seq d; u_email := e;
                               u_password_hash := bcrypt_hash p 10;
                               u_display_name := n |}])
               (users_seq d + 1)
        /\ published (run (register b) f d)
           = [db_after (run (register b) f d)]
        /\ response_of (run (register b) f d)
           = Ok {| status := 201;
                   body := JSession
                             (makeToken {| c_id := users_seq d; c_email := e;
                                           c_display_name := n |})
                             {| c_id := users_seq d; c_email := e;
                                c_display_name := n |} |}).
Proof.
  unfold register, Js.falsy.
  destruct (Js.truthy (rb_email b)) eqn:He; cbn [negb orb];
    [|left; cbn; auto].
  destruct (Js.truthy (rb_password b)) eqn:Hp; cbn [negb orb];
    [|left; cbn; auto].
  destruct (Js.truthy (rb_display_name b)) eqn:Hn; cbn [negb orb];
    [|left; cbn; auto].
  destruct (truthy_some _ He) as (e & Ee & He' & Oe).
  destruct (truthy_some _ Hp) as (p & Ep & Hp' & Op).
  destruct (truthy_some _ Hn) as (n & En & Hn' & On).
  rewrite Oe, Op, On. clear Oe Op On.
  unfold_monad; simpl_world.
  step_fault f; [left; cbn; auto|].
  destruct (users_by_email d e) as [|x rest] eqn:Hsel; [|left; cbn; auto].
  cbn. step_fault f; [left; cbn; auto|].
  right. exists e, p, n. cbn. repeat split; auto.
Qed.

(** X10.  Registration keeps the users table keyed: whatever the request
    and whichever storage calls fail, e-mail addresses stay distinct and ids
    stay distinct and below the counter, in every state that becomes
    visible. *)
Theorem register_keeps_users_keyed (b : register_body) (f : faults) (d : db) :
  users_keyed d ->
  users_keyed (db_after (run (register b) f d))
  /\ Forall users_keyed (published (run (register b) f d)).
Proof.
  intros Hk.
  destruct (register_outcome b f d)
    as [(-> & -> & _)
       |(e & p & n & _ & _ & _ & _ & _ & _ & Hnone & _ & _ & Hdb & -> & _)].
  { split; [assumption|constructor]. }
  assert (Hk' : users_keyed (db_after (run (register b) f d))).
  { rewrite Hdb. destruct Hk as [Hem Hid Hnd]. split; cbn.
    - rewrite map_app; cbn. apply NoDup_snoc; [assumption|].
      now apply users_by_email_none.
    - intros u Hin. apply in_app_or in Hin. destruct Hin as [Hin|[<-|[]]].
      + specialize (Hid u Hin). lia.
      + cbn. lia.
    - rewrite map_app; cbn. apply NoDup_snoc; [assumption|].
      intros Hin. apply in_map_iff in Hin. destruct Hin as (u & Heq & Hin).
      specialize (Hid u Hin). lia. }
  split; [assumption|]. constructor; [assumption|constructor].
Qed.

(** X11.  With a hash function whose hashes match their passwords, a
    registration that succeeds is followed by a successful login: the same
    address and password are answered 200 with the identity that the
    registration returned. *)
Theorem register_then_login (b : register_body) (f f' : faults) (d : db)
    (t : string) (c : claims) :
  (forall p, bcrypt_compare p (bcrypt_hash p 10) = true) ->
  response_of (run (register b) f d)
  = Ok {| status := 201; body := JSession t c |} ->
  f' 0%nat = false ->
  exists t',
    response_of
      (run (login {| lb_email := rb_email b;
                     lb_password := Js.of_field (rb_password b) |})
         f' (db_after (run (register b) f d)))
    = Ok (json (JSession t' c))
    /\ rb_email b = Some (c_email c)
    /\ rb_display_name b = Some (c_display_name c)
    /\ c_id c = users_seq d.
Proof.
  intros Hhash Hreg Hf'.
  destruct (register_outcome b f d)
    as [(_ & _ & Hno)
       |(e & p & n & He & Hp & Hn & He' & Hp' & Hn' & Hnone & _ & _ & Hdb
         & _ & Hresp)].
  { rewrite Hreg in Hno. cbn in Hno. now elim Hno. }
  rewrite Hresp in Hreg. injection Hreg as <- <-.
  rewrite Hdb. exists (makeToken {| c_id := users_seq d; c_email := e;
                                    c_display_name := n |}).
  split; [|cbn; auto].
  unfold login, compare_password, Js.falsy, Js.falsy_value, Js.truthy;
    cbn [lb_email lb_password].
  rewrite He, Hp. cbn [Js.of_field Js.truthy_value].
  destruct (String.eqb_spec e ""); [contradiction|].
  destruct (String.eqb_spec p ""); [contradiction|]. cbn [negb orb].
  unfold_monad; simpl_world. rewrite Hf'. cbn [Js.or_else].
  destruct (String.eqb_spec e ""); [contradiction|].
  unfold users_by_email in *; cbn [users set_users].
  rewrite filter_app, Hnone; cbn. rewrite String.eqb_refl; cbn.
  rewrite Hhash. reflexivity.
Qed.

(** X12.  Without a header that starts with "Bearer " and whose token
    verifies, the middleware answers 401 and the route's handler does not
    run: no storage call is made and the store is unchanged.  Otherwise the
    request runs the handler with the claims of the token. *)
Theorem authMiddleware_gate (authHeader : option string)
    (next : claims -> M response) (f : faults) (d : db) :
  (exists h c,
     authHeader = Some h /\ Js.startsWith "Bearer " h = true
     /\ jwt_verify (nth 1 (Js.split_space h) "") = Some c
     /\ run (authMiddleware authHeader next) f d = run (next c) f d)
  \/ ((response_of (run (authMiddleware authHeader next) f d)
       = Ok (error 401 "No token provided or malformed header")
       \/ response_of (run (authMiddleware authHeader next) f d)
          = Ok (error 401 "Invalid token"))
      /\ calls_of (run (authMiddleware authHeader next) f d) = []
      /\ db_after (run (authMiddleware authHeader next) f d) = d
      /\ published (run (authMiddleware authHeader next) f d) = []).
Proof.
  unfold authMiddleware.
  destruct (Js.falsy authHeader) eqn:Hfalsy; cbn [orb].
  { right. cbn. auto. }
  destruct authHeader as [h|]; [|discriminate].
  assert (Hor : Js.or_else (Some h) "" = h).
  { unfold Js.falsy, Js.truthy in Hfalsy. cbn.
    destruct (String.eqb_spec h ""); [discriminate|reflexivity]. }
  rewrite Hor.
  destruct (Js.startsWith "Bearer " h) eqn:Hb; cbn [negb].
  2:{ right. cbn. auto. }
  destruct (jwt_verify (nth 1 (Js.split_space h) "")) as [c|] eqn:Hv.
  - left. exists h, c. auto.
  - right. cbn. auto.
Qed.

(** X13.  When the token library verifies the token it signed for the new
    user, and that token holds no space, the token a successful registration
    returns opens the protected routes as the user just created. *)
Theorem registered_token_is_accepted (b : register_body) (f : faults)
    (d : db) (t : string) (c : claims) (next : claims -> M response) :
  jwt_verify (jwt_sign c) = Some c ->
  Js.split_space (jwt_sign c) = [jwt_sign c] ->
  response_of (run (register b) f d)
  = Ok {| status := 201; body := JSession t c |} ->
  authMiddleware (Some ("Bearer " ++ t)) next = next c
  /\ c_id c = users_seq d.
Proof.
  intros Hverify Hspace Hreg.
  destruct (register_outcome b f d)
    as [(_ & _ & Hno)|(e & p & n & _ & _ & _ & _ & _ & _ & _ & _ & _ & _ & _
                       & Hresp)].
  { rewrite Hreg in Hno. cbn in Hno. now elim Hno. }
  rewrite Hresp in Hreg. injection Hreg as <- <-.
  split; [|reflexivity].
  apply authMiddleware_bearer. unfold makeToken.
  rewrite Hspace. cbn. exact Hverify.
Qed.

End AccountFacts.

Lemma users_keyed_users_db : users_keyed Sample.users_db.
Proof.
  split; cbn.
  - repeat constructor. intros [].
  - intros u [<-|[]]. cbn. lia.
  - repeat constructor. intros [].
Defined.

Lemma register_keeps_users_keyed_witness :
  users_keyed
    (db_after (run (@register Sample.toy_crypto Fixture.new_user) no_faults
                 Sample.users_db)).
Proof.
  exact (proj1 (@register_keeps_users_keyed Sample.toy_crypto Fixture.new_user
                  no_faults Sample.users_db users_keyed_users_db)).
Defined.

Lemma register_then_login_witness :
  exists t',
    response_of
      (run (@login Sample.toy_crypto
              {| lb_email := Some "dave@example.org";
                 lb_password := Js.Str "pw" |})
         no_faults
         (db_after (run (@register Sample.toy_crypto Fixture.new_user)
                      no_faults Sample.users_db)))
    = Ok (json (JSession t' Fixture.dave)).
Proof.
  destruct (@register_then_login Sample.toy_crypto Fixture.new_user no_faults
              no_faults Sample.users_db "dave@example.org" Fixture.dave
              (fun p => String.eqb_refl _) eq_refl eq_refl)
    as (t' & Hlogin & _).
  exists t'. exact Hlogin.
Defined.

Lemma registered_token_is_accepted_witness :
  @authMiddleware Fixture.dave_crypto (Some "Bearer dave@example.org")
    (fun user => join user "1")
  = join Fixture.dave "1".
Proof.
  exact (proj1 (@registered_token_is_accepted Fixture.dave_crypto
                  Fixture.new_user no_faults Sample.users_db
                  "dave@example.org" Fixture.dave (fun user => join user "1")
                  eq_refl eq_refl eq_refl)).
Defined.

(* ================================================================== *)
(** ** Profiles and subjects of other users *)

Lemma find_replace_other (row : profile_row) (uid : Z)
    (l : list profile_row) :
  uid <> p_user_id row ->
  find (fun p => p_user_id p =? uid)
       (map (fun p => if p_user_id p =? p_user_id row then row else p) l)
  = find (fun p => p_user_id p =? uid) l.
Proof.
  intros Hne. induction l as [|p l IH]; cbn; [reflexivity|].
  destruct (Z.eqb_spec (p_user_id p) (p_user_id row)) as [E|E].
  - destruct (Z.eqb_spec (p_user_id row) uid); [congruence|].
    destruct (Z.eqb_spec (p_user_id p) uid); [congruence|]. exact IH.
  - destruct (p_user_id p =? uid); [reflexivity|exact IH].
Qed.

Lemma find_append_other (row : profile_row) (uid : Z)
    (l : list profile_row) :
  uid <> p_user_id row ->
  find (fun p => p_user_id p =? uid) (l ++ [row])
  = find (fun p => p_user_id p =? uid) l.
Proof.
  intros Hne. induction l as [|p l IH]; cbn.
  - destruct (Z.eqb_spec (p_user_id row) uid); [congruence|reflexivity].
  - destruct (p_user_id p =? uid); [reflexivity|exact IH].
Qed.

Lemma existsb_false_no_key {A} (k : A -> Z) (v : Z) (l : list A) :
  existsb (fun y => k y =? v) l = false -> ~ In v (map k l).
Proof.
  induction l as [|x l IH]; cbn; [tauto|].
  destruct (Z.eqb_spec (k x) v); cbn; [discriminate|].
  intros Hl [Hx|Hin]; [contradiction|]. now apply IH.
Qed.

(** X14.  A profile request touches the caller's profile only: whatever it
    carries and whichever storage call fails, every other user's stored
    profile is what it was, no table but [profiles] changes, and when the
    store held at most one profile per user it still does. *)
Theorem upsertProfile_frame (user : claims) (b : profile_body) (f : faults)
    (d : db) :
  (forall uid, uid <> c_id user ->
     profile_of (db_after (run (upsertProfile user b) f d)) uid
     = profile_of d uid)
  /\ (NoDup (map p_user_id (profiles d)) ->
      NoDup (map p_user_id
               (profiles (db_after (run (upsertProfile user b) f d)))))
  /\ users (db_after (run (upsertProfile user b) f d)) = users d
  /\ user_subjects (db_after (run (upsertProfile user b) f d))
     = user_subjects d
  /\ groups (db_after (run (upsertProfile user b) f d)) = groups d
  /\ group_members (db_after (run (upsertProfile user b) f d))
     = group_members d
  /\ group_messages (db_after (run (upsertProfile user b) f d))
     = group_messages d.
Proof.
  unfold upsertProfile. unfold_monad; simpl_world.
  step_fault f; [cbn; repeat split; auto|].
  unfold upsert_profile. cbn [p_user_id].
  destruct (existsb _ (profiles d)) eqn:E; cbn.
  - repeat split; auto.
    + intros uid Hne. unfold profile_of; cbn.
      now apply (find_replace_other
                   {| p_user_id := c_id user;
                      p_bio := Js.or_null (pb_bio b);
                      p_location := Js.or_null (pb_location b);
                      p_availability := Js.or_null (pb_availability b) |}).
    + intros Hnd. rewrite map_map.
      erewrite map_ext; [exact Hnd|].
      intros p. cbn. destruct (Z.eqb_spec (p_user_id p) (c_id user)); cbn;
        congruence.
  - repeat split; auto.
    + intros uid Hne. unfold profile_of; cbn.
      now apply (find_append_other
                   {| p_user_id := c_id user;
                      p_bio := Js.or_null (pb_bio b);
                      p_location := Js.or_null (pb_location b);
                      p_availability := Js.or_null (pb_availability b) |}).
    + intros Hnd. rewrite map_app; cbn. apply NoDup_snoc; [assumption|].
      now apply (existsb_false_no_key p_user_id).
Qed.

Lemma upsertProfile_frame_witness :
  profile_of
    (db_after
       (run (upsertProfile Sample.bob
               {| pb_bio := Some "Teacher"; pb_location := None;
                  pb_availability := None |})
          no_faults Fixture.people_db))
    1
  = profile_of Fixture.people_db 1.
Proof.
  exact (proj1 (upsertProfile_frame Sample.bob
                  {| pb_bio := Some "Teacher"; pb_location := None;
                     pb_availability := None |}
                  no_faults Fixture.people_db) 1 ltac:(discriminate)).
Defined.

(* ================================================================== *)
(** ** The level of a user in a subject *)

Lemma level_of_updated (uid sid : Z) (lvl : string)
    (l : list user_subject_row) :
  existsb (fun r => (us_user_id r =? uid) && (us_subject_id r =? sid)) l
  = true ->
  option_map us_level
    (find (fun r => (us_user_id r =? uid) && (us_subject_id r =? sid))
       (map (fun r => if (us_user_id r =? uid) && (us_subject_id r =? sid)
                      then {| us_user_id := us_user_id r;
                              us_subject_id := us_subject_id r;
                              us_level := lvl |}
                      else r) l))
  = Some lvl.
Proof.
  induction l as [|r l IH]; cbn; [discriminate|].
  destruct ((us_user_id r =? uid) && (us_subject_id r =? sid)) eqn:E; cbn.
  - rewrite E. reflexivity.
  - rewrite E. exact IH.
Qed.

Lemma level_of_appended (uid sid : Z) (lvl : string)
    (l : list user_subject_row) :
  existsb (fun r => (us_user_id r =? uid) && (us_subject_id r =? sid)) l
  = false ->
  option_map us_level
    (find (fun r => (us_user_id r =? uid) && (us_subject_id r =? sid))
       (l ++ [{| us_user_id := uid; us_subject_id := sid;
                 us_level := lvl |}]))
  = Some lvl.
Proof.
  induction l as [|r l IH]; cbn.
  - now rewrite !Z.eqb_refl.
  - destruct ((us_user_id r =? uid) && (us_subject_id r =? sid)); cbn;
      [discriminate|exact IH].
Qed.

Lemma level_of_other_updated (uid sid uid' sid' : Z) (lvl : string)
    (l : list user_subject_row) :
  (uid', sid') <> (uid, sid) ->
  option_map us_level
    (find (fun r => (us_user_id r =? uid') && (us_subject_id r =? sid'))
       (map (fun r => if (us_user_id r =? uid) && (us_subject_id r =? sid)
                      then {| us_user_id := us_user_id r;
                              us_subject_id := us_subject_id r;
                              us_level := lvl |}
                      else r) l))
  = option_map us_level
      (find (fun r => (us_user_id r =? uid') && (us_subject_id r =? sid')) l).
Proof.
  intros Hne. induction l as [|r l IH]; cbn; [reflexivity|].
  destruct ((us_user_id r =? uid) && (us_subject_id r =? sid)) eqn:E; cbn.
  - apply andb_prop in E. destruct E as [E1 E2].
    destruct ((us_user_id r =? uid') && (us_subject_id r =? sid')) eqn:E';
      [|exact IH].
    apply andb_prop in E'. destruct E' as [E1' E2'].
    exfalso. apply Hne. f_equal; lia.
  - destruct ((us_user_id r =? uid') && (us_subject_id r =? sid'));
      [reflexivity|exact IH].
Qed.

Lemma level_of_other_appended (uid sid uid' sid' : Z) (lvl : string)
    (l : list user_subject_row) :
  (uid', sid') <> (uid, sid) ->
  option_map us_level
    (find (fun r => (us_user_id r =? uid') && (us_subject_id r =? sid'))
       (l ++ [{| us_user_id := uid; us_subject_id := sid;
                 us_level := lvl |}]))
  = option_map us_level
      (find (fun r => (us_user_id r =? uid') && (us_subject_id r =? sid')) l).
Proof.
  intros Hne. induction l as [|r l IH]; cbn.
  - destruct ((uid =? uid') && (sid =? sid')) eqn:E; [|reflexivity].
    apply andb_prop in E. destruct E as [E1 E2].
    exfalso. apply Hne. f_equal; lia.
  - destruct ((us_user_id r =? uid') && (us_subject_id r =? sid'));
      [reflexivity|exact IH].
Qed.

Lemma subject_keys_updated (uid sid : Z) (lvl : string)
    (l : list user_subject_row) :
  map subject_key
    (map (fun r => if (us_user_id r =? uid) && (us_subject_id r =? sid)
                   then {| us_user_id := us_user_id r;
                           us_subject_id := us_subject_id r;
                           us_level := lvl |}
                   else r) l)
  = map subject_key l.
Proof.
  rewrite map_map. apply map_ext. intros r.
  destruct ((us_user_id r =? uid) && (us_subject_id r =? sid)); reflexivity.
Qed.

Lemma subject_key_absent (uid sid : Z) (l : list user_subject_row) :
  existsb (fun r => (us_user_id r =? uid) && (us_subject_id r =? sid)) l
  = false ->
  ~ In (uid, sid) (map subject_key l).
Proof.
  induction l as [|r l IH]; cbn; [tauto|].
  destruct ((us_user_id r =? uid) && (us_subject_id r =? sid)) eqn:E; cbn;
    [discriminate|].
  intros Hl [Hr|Hin]; [|now apply IH].
  unfold subject_key in Hr. injection Hr as H1 H2.
  rewrite H1, H2, !Z.eqb_refl in E. discriminate.
Qed.

(** What a user-subject request does to the store when its statement runs. *)
Lemma upsert_user_subject_effect (uid sid : Z) (lvl : string) (d : db) :
  exists d',
    upsert_user_subject uid sid lvl d = Ok (tt, d')
    /\ level_of d' uid sid = Some lvl
    /\ (forall uid' sid', (uid', sid') <> (uid, sid) ->
          level_of d' uid' sid' = level_of d uid' sid')
    /\ (NoDup (map subject_key (user_subjects d)) ->
        NoDup (map subject_key (user_subjects d')))
    /\ set_user_subjects d' (user_subjects d) = d.
Proof.
  unfold upsert_user_subject, level_of.
  destruct (existsb _ (user_subjects d)) eqn:E; eexists;
    (split; [reflexivity|]); cbn [user_subjects set_user_subjects].
  - split; [now apply level_of_updated|].
    split; [intros; now apply level_of_other_updated|].
    split; [now rewrite subject_keys_updated|].
    destruct d; reflexivity.
  - split; [now apply level_of_appended|].
    split; [intros; now apply level_of_other_appended|].
    split; [|destruct d; reflexivity].
    intros Hnd. rewrite map_app; cbn. apply NoDup_snoc; [assumption|].
    now apply subject_key_absent.
Qed.

(** X15.  A user-subject request is answered 400 "Missing fields" exactly
    when its subject id is absent or 0 or its level is absent or empty.
    Unless it is answered [{ ok: true }] the store is unchanged.  When it
    is, the level stored for the caller and that subject is the level of the
    request, the level of every other user-subject pair is what it was, and
    pairs that were stored once are still stored once. *)
Theorem upsertUserSubject_contract (user : claims) (b : subject_body)
    (f : faults) (d : db) :
  (response_of (run (upsertUserSubject user b) f d)
   = Ok (error 400 "Missing fields")
   <-> falsy_num (sb_subject_id b) || Js.falsy (sb_level b) = true)
  /\ (response_of (run (upsertUserSubject user b) f d) <> Ok (json JOk) ->
      db_after (run (upsertUserSubject user b) f d) = d)
  /\ (response_of (run (upsertUserSubject user b) f d) = Ok (json JOk) ->
      exists sid lvl,
        sb_subject_id b = Some sid /\ sid <> 0
        /\ sb_level b = Some lvl /\ lvl <> ""
        /\ level_of (db_after (run (upsertUserSubject user b) f d))
             (c_id user) sid
           = Some lvl
        /\ (forall uid' sid', (uid', sid') <> (c_id user, sid) ->
              level_of (db_after (run (upsertUserSubject user b) f d))
                uid' sid'
              = level_of d uid' sid'))
  /\ (NoDup (map subject_key (user_subjects d)) ->
      NoDup (map subject_key
               (user_subjects
                  (db_after (run (upsertUserSubject user b) f d))))).
Proof.
  unfold upsertUserSubject.
  destruct (falsy_num (sb_subject_id b) || Js.falsy (sb_level b)) eqn:Hmiss.
  { cbn. repeat split; auto; discriminate. }
  apply orb_false_elim in Hmiss. destruct Hmiss as [Hsid Hlvl].
  destruct (sb_subject_id b) as [sid|]; [|discriminate]. cbn in Hsid.
  assert (Ht : Js.truthy (sb_level b) = true)
    by (unfold Js.falsy in Hlvl; destruct (Js.truthy (sb_level b)); easy).
  destruct (truthy_some _ Ht) as (lvl & -> & Hne & Hor). rewrite Hor.
  cbn [Js.num_or_else]. rewrite Hsid.
  destruct (upsert_user_subject_effect (c_id user) sid lvl d)
    as (d' & Hrun & Hset & Hother & Hnd & _).
  unfold_monad; simpl_world.
  step_fault f.
  { cbn. repeat split; auto; discriminate. }
  rewrite Hrun. cbn. split; [split; discriminate|].
  split; [intros Habs; now elim Habs|]. split; [|exact Hnd].
  intros _. exists sid, lvl. repeat split; auto. lia.
Qed.

Lemma upsertUserSubject_contract_witness :
  response_of
    (run (upsertUserSubject Sample.bob Fixture.algebra_advanced) no_faults
       Fixture.people_db)
  = Ok (json JOk)
  /\ level_of
       (db_after
          (run (upsertUserSubject Sample.bob Fixture.algebra_advanced)
             no_faults Fixture.people_db))
       2 3
     = Some "advanced"
  /\ level_of
       (db_after
          (run (upsertUserSubject Sample.bob Fixture.algebra_advanced)
             no_faults Fixture.people_db))
       1 3
     = Some "advanced".
Proof.
  destruct (upsertUserSubject_contract Sample.bob Fixture.algebra_advanced
              no_faults Fixture.people_db) as (_ & _ & Hok & _).
  destruct (Hok eq_refl) as (sid & lvl & Hs & _ & Hl & _ & Hset & Hother).
  injection Hs as <-. injection Hl as <-.
  split; [reflexivity|]. split; [exact Hset|].
  rewrite (Hother 1 3 ltac:(discriminate)). reflexivity.
Defined.

(* ================================================================== *)
(** ** The earlier join handler *)

(** X16.  The earlier join handler, on a group that exists and with no
    storage failure, asks about the membership first: a member is answered
    400 "Already a member" whether or not the group is full; a non-member of
    a full group is answered 400 "Group full"; a non-member of a group with
    a free seat is admitted, and only then does the store change. *)
Theorem legacy_join_order (user : claims) (gid : Z) (d : db) (g : group_row)
    (rest : list group_row) :
  groups_by_id d gid = g :: rest ->
  (memberships d gid (c_id user) <> [] ->
   response_of (run (Legacy.join user (Some gid)) no_faults d)
   = Ok (error 400 "Already a member")
   /\ db_after (run (Legacy.join user (Some gid)) no_faults d) = d)
  /\ (memberships d gid (c_id user) = [] ->
      g_max_members g <= member_count d gid ->
      response_of (run (Legacy.join user (Some gid)) no_faults d)
      = Ok (error 400 "Group full")
      /\ db_after (run (Legacy.join user (Some gid)) no_faults d) = d)
  /\ (memberships d gid (c_id user) = [] ->
      member_count d gid < g_max_members g ->
      response_of (run (Legacy.join user (Some gid)) no_faults d)
      = Ok (json JOk)
      /\ db_after (run (Legacy.join user (Some gid)) no_faults d)
         = joined d gid (c_id user)).
Proof.
  intros Hsel. unfold Legacy.join.
  unfold_monad; unfold no_faults; simpl_world. rewrite Hsel. simpl_world.
  destruct (memberships d gid (c_id user)) as [|m ms].
  - split; [intros Habs; now elim Habs|].
    cbn. split; intros _ Hcmp.
    + destruct (member_count d gid >=? g_max_members g) eqn:E; [|lia].
      cbn. auto.
    + destruct (member_count d gid >=? g_max_members g) eqn:E; [lia|].
      cbn. auto.
  - cbn. split; [auto|]. split; discriminate.
Qed.

Lemma legacy_join_order_witness :
  response_of (run (Legacy.join Sample.alice (Some 1)) no_faults
                 Fixture.club_db)
  = Ok (error 400 "Already a member")
  /\ response_of (run (Legacy.join Sample.bob (Some 1)) no_faults
                    Fixture.club_db)
     = Ok (json JOk).
Proof.
  destruct (legacy_join_order Sample.alice 1 Fixture.club_db _ [] eq_refl)
    as (Hmember & _ & _).
  destruct (legacy_join_order Sample.bob 1 Fixture.club_db _ [] eq_refl)
    as (_ & _ & Hfree).
  split.
  - exact (proj1 (Hmember ltac:(discriminate))).
  - exact (proj1 (Hfree eq_refl ltac:(cbn; lia))).
Defined.

(* ================================================================== *)
(** ** Join: the connection *)

Ltac discipline_leaf :=
  cbn; repeat split; try reflexivity;
  intros Hne; first [reflexivity | now elim Hne].

(** X17.  A join request whose id parses acquires one connection.  When
    acquiring it fails, the failure escapes the handler: no response is
    written and nothing else is called.  Otherwise the connection is
    released exactly once, as the last call, whatever storage calls fail;
    and whenever a response is written no transaction is left open. *)
Theorem join_connection_discipline (user : claims) (id : string) (f : faults)
    (d : db) (gid : Z) :
  Js.parseInt id = Some gid ->
  (f 0%nat = true ->
   response_of (run (join user id) f d) = Throw
   /\ calls_of (run (join user id) f d) = [PoolConnect]
   /\ db_after (run (join user id) f d) = d)
  /\ (f 0%nat = false ->
      hd_error (calls_of (run (join user id) f d)) = Some PoolConnect
      /\ List.length (filter is_connect (calls_of (run (join user id) f d)))
         = 1%nat
      /\ last (calls_of (run (join user id) f d)) PoolConnect = ClientRelease
      /\ List.length (filter is_release (calls_of (run (join user id) f d)))
         = 1%nat
      /\ (response_of (run (join user id) f d) <> Throw ->
          tx (snd (run (join user id) f d)) = None)).
Proof.
  intros Hp. unfold join. rewrite Hp.
  unfold_monad; simpl_world.
  split; intros Hconnect; rewrite Hconnect; simpl_world;
    [repeat split|].
  step_fault f; [step_fault f; discipline_leaf|].
  step_fault f; [step_fault f; discipline_leaf|].
  destruct (groups_by_id d gid) as [|g rest].
  { cbn. step_fault f; [step_fault f|]; discipline_leaf. }
  cbn. step_fault f; [step_fault f; discipline_leaf|].
  destruct (member_count d gid >=? g_max_members g).
  { cbn. step_fault f; [step_fault f|]; discipline_leaf. }
  cbn. step_fault f; [step_fault f; discipline_leaf|].
  destruct (memberships d gid (c_id user)).
  2:{ cbn. step_fault f; [step_fault f|]; discipline_leaf. }
  cbn. step_fault f; [step_fault f; discipline_leaf|].
  step_fault f; [step_fault f; discipline_leaf|].
  discipline_leaf.
Qed.

Lemma join_connection_discipline_witness :
  calls_of (run (join Sample.bob "1") Sample.second_call_fails
              Fixture.club_db)
  = [PoolConnect; ClientQuery Begin; ClientQuery Rollback; ClientRelease]
  /\ last (calls_of (run (join Sample.bob "1") Sample.second_call_fails
                       Fixture.club_db)) PoolConnect
     = ClientRelease.
Proof.
  split; [reflexivity|].
  destruct (join_connection_discipline Sample.bob "1"
              Sample.second_call_fails Fixture.club_db 1 eq_refl)
    as [_ Hreleased].
  destruct (Hreleased eq_refl) as (_ & _ & Hlast & _).
  exact Hlast.
Defined.

(* ================================================================== *)
(** ** Missing fields *)

Section ValidationFacts.

Context `{Crypto}.

(** X18.  Registration is answered 400 "Missing required fields" exactly
    when one of its three fields is absent or empty, and login is answered
    400 "Email and password are required" exactly when its e-mail address
    is absent or empty or its password is falsy (absent or empty, or null,
    false or 0); no other path gives these answers, and a request turned
    away so makes no storage call. *)
Theorem missing_fields_rejected (rb : register_body) (lb : login_body)
    (f : faults) (d : db) :
  (response_of (run (register rb) f d)
   = Ok (error 400 "Missing required fields")
   <-> Js.falsy (rb_email rb) || Js.falsy (rb_password rb)
       || Js.falsy (rb_display_name rb) = true)
  /\ (Js.falsy (rb_email rb) || Js.falsy (rb_password rb)
      || Js.falsy (rb_display_name rb) = true ->
      calls_of (run (register rb) f d) = [])
  /\ (response_of (run (login lb) f d)
      = Ok (error 400 "Email and password are required")
      <-> Js.falsy (lb_email lb) || Js.falsy_value (lb_password lb) = true)
  /\ (Js.falsy (lb_email lb) || Js.falsy_value (lb_password lb) = true ->
      calls_of (run (login lb) f d) = []).
Proof.
  split; [|split; [|split]].
  - unfold register.
    destruct (Js.falsy (rb_email rb) || Js.falsy (rb_password rb)
              || Js.falsy (rb_display_name rb)); [split; reflexivity|].
    split; [|discriminate].
    unfold_monad; simpl_world. step_fault f; [cbn; discriminate|].
    destruct (users_by_email d _); cbn; [|discriminate].
    step_fault f; cbn; discriminate.
  - unfold register. intros ->. reflexivity.
  - unfold login, compare_password.
    destruct (Js.falsy (lb_email lb) || Js.falsy_value (lb_password lb));
      [split; reflexivity|].
    split; [|discriminate].
    unfold_monad; simpl_world. step_fault f; [cbn; discriminate|].
    destruct (users_by_email d _); cbn; [discriminate|].
    destruct (lb_password lb); cbn; try discriminate.
    destruct (bcrypt_compare _ _); cbn; discriminate.
  - unfold login. intros ->. reflexivity.
Qed.

End ValidationFacts.

Lemma missing_fields_rejected_witness :
  response_of
    (run (@register Sample.toy_crypto
            {| rb_email := Some "eve@example.org"; rb_password := Some "";
               rb_display_name := Some "Eve" |})
       no_faults Sample.users_db)
  = Ok (error 400 "Missing required fields")
  /\ calls_of
       (run (@login Sample.toy_crypto
               {| lb_email := None; lb_password := Js.Str "pw" |})
          no_faults Sample.users_db)
     = [].
Proof.
  destruct (@missing_fields_rejected Sample.toy_crypto
              {| rb_email := Some "eve@example.org"; rb_password := Some "";
                 rb_display_name := Some "Eve" |}
              {| lb_email := None; lb_password := Js.Str "pw" |}
              no_faults Sample.users_db) as (Hreg & _ & _ & Hlogin).
  split; [exact (proj2 Hreg eq_refl)|exact (Hlogin eq_refl)].
Defined.

(* ================================================================== *)
(** ** The message log only grows *)

(** X19.  Whatever a message request carries and whichever storage call
    fails, the stored messages stay as they are and in place: the log after
    the request is the log before it, followed by at most one new message;
    message ids stay distinct and below the counter, and no other table
    changes. *)
Theorem postMessage_appends_only (user : claims) (id : string)
    (message : option string) (f : faults) (d : db) :
  (exists new,
     group_messages (db_after (run (postMessage user id message) f d))
     = (group_messages d ++ new)%list
     /\ (List.length new <= 1)%nat
     /\ Forall (fun m => m_user_id m = c_id user /\ m_id m = messages_seq d)
          new)
  /\ (messages_keyed d ->
      messages_keyed (db_after (run (postMessage user id message) f d)))
  /\ users (db_after (run (postMessage user id message) f d)) = users d
  /\ groups (db_after (run (postMessage user id message) f d)) = groups d
  /\ group_members (db_after (run (postMessage user id message) f d))
     = group_members d.
Proof.
  assert (Hsame :
            (exists new,
               group_messages d = (group_messages d ++ new)%list
               /\ (List.length new <= 1)%nat
               /\ Forall (fun m => m_user_id m = c_id user
                                   /\ m_id m = messages_seq d) new)
            /\ (messages_keyed d -> messages_keyed d)
            /\ users d = users d
            /\ groups d = groups d
            /\ group_members d = group_members d).
  { split; [|split; [auto|repeat split]].
    exists []. rewrite app_nil_r. split; [reflexivity|].
    split; [cbn; lia|constructor]. }
  unfold postMessage.
  destruct (Js.falsy message); [exact Hsame|].
  unfold_monad; simpl_world. step_fault f; [exact Hsame|].
  destruct (Js.parseInt id) as [gid|]; cbn [insert_message];
    [|exact Hsame].
  cbn. split; [|split; [|repeat split]].
  - eexists. split; [reflexivity|]. split; [cbn; lia|].
    constructor; [cbn; auto|constructor].
  - intros [Hnd Hid]. split; cbn.
    + rewrite map_app; cbn. apply NoDup_snoc; [assumption|].
      intros Hin. apply in_map_iff in Hin. destruct Hin as (m & Heq & Hin).
      specialize (Hid m Hin). lia.
    + intros m Hin. apply in_app_or in Hin.
      destruct Hin as [Hin|[<-|[]]].
      * specialize (Hid m Hin). lia.
      * cbn. lia.
Qed.

Lemma messages_keyed_club_db : messages_keyed Fixture.club_db.
Proof.
  split; cbn.
  - constructor.
  - intros m [].
Defined.

Lemma postMessage_appends_only_witness :
  messages_keyed
    (db_after (run (postMessage Sample.bob "1" (Some "hello")) no_faults
                 Fixture.club_db)).
Proof.
  exact (proj1 (proj2 (postMessage_appends_only Sample.bob "1" (Some "hello")
                         no_faults Fixture.club_db))
           messages_keyed_club_db).
Defined.

(* ================================================================== *)
(** ** Searching groups on any store *)

(** The member count, counted on the [group_id] column. *)
Lemma member_count_occ (d : db) (gid : Z) :
  member_count d gid
  = Z.of_nat (count_occ Z.eq_dec (map gm_group_id (group_members d)) gid).
Proof.
  unfold member_count. f_equal.
  induction (group_members d) as [|m l IH]; cbn; [reflexivity|].
  destruct (Z.eq_dec (gm_group_id m) gid) as [E|E].
  - rewrite (proj2 (Z.eqb_eq _ _) E). cbn. now rewrite IH.
  - rewrite (proj2 (Z.eqb_neq _ _) E). exact IH.
Qed.

(** The rows the joins and the [WHERE] clause let through: one for every
    wanted group, stored subject row of its subject and stored user row of
    its owner. *)
Lemma in_match_group_rows (s : Z) (level : option string) (d : db)
    (r : match_group_row) :
  In r (match_group_rows (Some s) level d)
  <-> exists g s0 u0,
        In g (groups d) /\ wanted s (Js.or_null level) g = true
        /\ In s0 (subjects d) /\ s_id s0 = s
        /\ In u0 (users d) /\ u_id u0 = g_owner_id g
        /\ r = {| mg_group := g; mg_subject_name := s_name s0;
                  mg_owner_name := u_display_name u0;
                  mg_member_count :=
                    Z.of_nat (count_occ Z.eq_dec
                                (map gm_group_id (group_members d))
                                (g_id g)) |}.
Proof.
  unfold match_group_rows. split.
  - intros Hr.
    apply in_flat_map in Hr. destruct Hr as (g & Hg & Hr).
    apply in_flat_map in Hr. destruct Hr as (s0 & Hs & Hr).
    apply in_flat_map in Hr. destruct Hr as (u0 & Hu & Hr).
    apply filter_In in Hs. destruct Hs as [Hs Hsid].
    apply filter_In in Hu. destruct Hu as [Hu Huid].
    destruct (group_matches (Some s) level g) eqn:E; [|contradiction].
    destruct Hr as [<-|[]].
    exists g, s0, u0. rewrite <- group_matches_wanted, <- member_count_occ.
    repeat split; auto; [|lia].
    unfold group_matches in E. destruct (g_subject_id g) as [a|];
      [|discriminate].
    apply andb_prop in E. destruct E as [E _]. lia.
  - intros (g & s0 & u0 & Hg & Hw & Hs & Hsid & Hu & Huid & ->).
    rewrite <- group_matches_wanted in Hw.
    apply in_flat_map. exists g. split; [assumption|].
    assert (Ha : g_subject_id g = Some s).
    { unfold group_matches in Hw. destruct (g_subject_id g) as [a|];
        [|discriminate].
      apply andb_prop in Hw. destruct Hw as [E _]. f_equal. lia. }
    apply in_flat_map. exists s0. split.
    { apply filter_In. split; [assumption|]. rewrite Ha. lia. }
    apply in_flat_map. exists u0. split.
    { apply filter_In. split; [assumption|]. lia. }
    rewrite Hw, member_count_occ. now left.
Qed.

Lemma filter_nothing {A} (l : list A) : filter (fun _ => false) l = [].
Proof. induction l as [|x l IH]; cbn; auto. Qed.

Lemma filter_at_most_one {A} (k : A -> Z) (v : Z) (l : list A) :
  NoDup (map k l) ->
  filter (fun y => k y =? v) l = [] \/ exists a, filter (fun y => k y =? v) l = [a].
Proof.
  intros Hnd. destruct (in_dec Z.eq_dec v (map k l)) as [Hin|Hout].
  - right. now apply filter_unique_key.
  - left. now apply filter_no_key.
Qed.

(** With distinct ids the joins list no group twice. *)
Lemma match_group_rows_once (s : Z) (level : option string) (d : db) :
  NoDup (map g_id (groups d)) -> NoDup (map s_id (subjects d)) ->
  NoDup (map u_id (users d)) ->
  NoDup (map (fun r => g_id (mg_group r)) (match_group_rows (Some s) level d)).
Proof.
  intros Hg Hs Hu. unfold match_group_rows.
  assert (Hkeys : forall gs,
            NoDup (map g_id gs) ->
            NoDup (map (fun r => g_id (mg_group r))
                     (flat_map (fun g =>
                        flat_map (fun s0 =>
                          flat_map (fun u =>
                            if group_matches (Some s) level g
                            then [{| mg_group := g;
                                     mg_subject_name := s_name s0;
                                     mg_owner_name := u_display_name u;
                                     mg_member_count :=
                                       member_count d (g_id g) |}]
                            else [])
                            (filter (fun u => u_id u =? g_owner_id g)
                               (users d)))
                          (filter (fun s0 => match g_subject_id g with
                                             | Some a => s_id s0 =? a
                                             | None => false
                                             end) (subjects d))) gs))
            /\ forall x,
                 In x (map (fun r => g_id (mg_group r))
                         (flat_map (fun g =>
                            flat_map (fun s0 =>
                              flat_map (fun u =>
                                if group_matches (Some s) level g
                                then [{| mg_group := g;
                                         mg_subject_name := s_name s0;
                                         mg_owner_name := u_display_name u;
                                         mg_member_count :=
                                           member_count d (g_id g) |}]
                                else [])
                                (filter (fun u => u_id u =? g_owner_id g)
                                   (users d)))
                              (filter (fun s0 => match g_subject_id g with
                                                 | Some a => s_id s0 =? a
                                                 | None => false
                                                 end) (subjects d))) gs)) ->
                 In x (map g_id gs)).
  { induction gs as [|g gs IH]; cbn [flat_map map]; intros Hnd.
    { split; [constructor|intros x []]. }
    inversion Hnd as [|? ? Hfresh Hnd']; subst.
    destruct (IH Hnd') as [IHn IHi].
    assert (Hone : forall inner : list match_group_row,
              (inner = [] \/ exists r, inner = [r] /\ mg_group r = g) ->
              NoDup (map (fun r => g_id (mg_group r)) (inner ++
                       flat_map (fun g =>
                        flat_map (fun s0 =>
                          flat_map (fun u =>
                            if group_matches (Some s) level g
                            then [{| mg_group := g;
                                     mg_subject_name := s_name s0;
                                     mg_owner_name := u_display_name u;
                                     mg_member_count :=
                                       member_count d (g_id g) |}]
                            else [])
                            (filter (fun u => u_id u =? g_owner_id g)
                               (users d)))
                          (filter (fun s0 => match g_subject_id g with
                                             | Some a => s_id s0 =? a
                                             | None => false
                                             end) (subjects d))) gs))
              /\ forall x,
                   In x (map (fun r => g_id (mg_group r)) (inner ++
                       flat_map (fun g =>
                        flat_map (fun s0 =>
                          flat_map (fun u =>
                            if group_matches (Some s) level g
                            then [{| mg_group := g;
                                     mg_subject_name := s_name s0;
                                     mg_owner_name := u_display_name u;
                                     mg_member_count :=
                                       member_count d (g_id g) |}]
                            else [])
                            (filter (fun u => u_id u =? g_owner_id g)
                               (users d)))
                          (filter (fun s0 => match g_subject_id g with
                                             | Some a => s_id s0 =? a
                                             | None => false
                                             end) (subjects d))) gs)) ->
                   g_id g = x \/ In x (map g_id gs)).
    { intros inner [->|(r & -> & Hr)]; cbn [app map].
      - split; [assumption|]. intros x Hx. right. now apply IHi.
      - rewrite Hr. split.
        + constructor; [|assumption]. intros Hin. apply Hfresh. now apply IHi.
        + intros x [Hx|Hx]; [now left|right; now apply IHi]. }
    apply Hone.
    assert (Hsub : filter (fun s0 => match g_subject_id g with
                                     | Some a => s_id s0 =? a
                                     | None => false
                                     end) (subjects d) = []
                   \/ exists s0, filter (fun s0 => match g_subject_id g with
                                                  | Some a => s_id s0 =? a
                                                  | None => false
                                                  end) (subjects d) = [s0]).
    { destruct (g_subject_id g) as [a|].
      - apply (filter_at_most_one s_id a (subjects d) Hs).
      - left. apply filter_nothing. }
    destruct Hsub as [->|(s0 & ->)]; [left; reflexivity|].
    cbn [flat_map]. rewrite app_nil_r.
    destruct (filter_at_most_one u_id (g_owner_id g) (users d) Hu)
      as [->|(u0 & ->)]; [left; reflexivity|].
    cbn [flat_map]. rewrite app_nil_r.
    destruct (group_matches (Some s) level g); [right|left; reflexivity].
    eexists. split; reflexivity. }
  exact (proj1 (Hkeys (groups d) Hg)).
Qed.

(** C8 (as amended).  A group search for subject [s] that the store answers
    returns, newest first and at most 50 of them, the rows that the inner
    joins let through: one for every wanted group -- subject [s], and with a
    level asked for, that level or "mixed" -- stored subject row of [s] and
    stored user row of the group's owner, with their names and with the
    number of membership rows of the group.  A wanted group whose subject or
    owner is not stored gets no row.  The rows left out by the cap are no
    newer than any row returned, and with distinct ids no group is listed
    twice. *)
Theorem findMatches_groups_joined (user : claims) (q : match_query)
    (f : faults) (d : db) (s : Z) :
  mq_type q = Some "group" -> mq_subject_id q = Some s -> f 0%nat = false ->
  exists rows rest,
    response_of (run (findMatches user q) f d) = Ok (json (JGroups rows))
    /\ (forall r,
          In r (rows ++ rest)
          <-> exists g s0 u0,
                In g (groups d)
                /\ wanted s (Js.or_null (mq_level q)) g = true
                /\ In s0 (subjects d) /\ s_id s0 = s
                /\ In u0 (users d) /\ u_id u0 = g_owner_id g
                /\ r = {| mg_group := g; mg_subject_name := s_name s0;
                          mg_owner_name := u_display_name u0;
                          mg_member_count :=
                            Z.of_nat (count_occ Z.eq_dec
                                        (map gm_group_id (group_members d))
                                        (g_id g)) |})
    /\ StronglySorted newer_or_equal rows
    /\ (List.length rows <= 50)%nat
    /\ (rest <> [] -> List.length rows = 50%nat)
    /\ (forall r r', In r rows -> In r' rest -> newer_or_equal r r')
    /\ (NoDup (map g_id (groups d)) -> NoDup (map s_id (subjects d)) ->
        NoDup (map u_id (users d)) ->
        NoDup (map (fun r => g_id (mg_group r)) (rows ++ rest))).
Proof.
  intros Htype Hsubj Hf.
  pose proof (order_newest_first_perm (match_group_rows (Some s) (mq_level q) d))
    as Hperm.
  pose proof (order_newest_first_sorted
                (match_group_rows (Some s) (mq_level q) d)) as Hsorted.
  set (sorted := order_newest_first (match_group_rows (Some s) (mq_level q) d))
    in *.
  exists (firstn 50 sorted), (skipn 50 sorted).
  rewrite <- (firstn_skipn 50 sorted) in Hsorted.
  apply StronglySorted_app_inv in Hsorted. destruct Hsorted as [Hs1 Hcross].
  rewrite firstn_skipn.
  split; [|split; [|split; [|split; [|split; [|split]]]]].
  - unfold findMatches. rewrite Htype, Hsubj.
    unfold_monad; simpl_world. rewrite Hf. reflexivity.
  - intros r. rewrite <- in_match_group_rows. split; intros Hr.
    + exact (Permutation_in _ Hperm Hr).
    + exact (Permutation_in _ (Permutation_sym Hperm) Hr).
  - exact Hs1.
  - apply firstn_le_length.
  - intros Hrest. apply firstn_length_le.
    destruct (Nat.le_gt_cases 50 (List.length sorted)) as [Hle|Hgt]; auto.
    rewrite skipn_all2 in Hrest by lia. now elim Hrest.
  - exact Hcross.
  - intros Hg Hsu Hu.
    apply (Permutation_NoDup
             (Permutation_map _ (Permutation_sym Hperm))).
    now apply match_group_rows_once.
Qed.

Lemma findMatches_groups_joined_witness :
  exists rows rest : list match_group_row,
    response_of
      (run (findMatches Sample.alice Sample.advanced_groups) no_faults
         Sample.match_db)
    = Ok (json (JGroups rows))
    /\ StronglySorted newer_or_equal rows
    /\ (List.length rows <= 50)%nat
    /\ (rest <> [] -> List.length rows = 50%nat).
Proof.
  destruct (findMatches_groups_joined Sample.alice Sample.advanced_groups
              no_faults Sample.match_db 3 eq_refl eq_refl eq_refl)
    as (rows & rest & Hresp & _ & Hsorted & Hlen & Hcap & _).
  exists rows, rest. repeat split; assumption.
Defined.

(** C8 (as stated) fails: Alice created a group for subject 99, of which the
    store holds no row.  The group is a group of subject 99, and the search
    for subject 99 returns nothing. *)
Lemma search_misses_group_of_unstored_subject :
  map g_id (filter (wanted 99 None) (groups Fixture.astrology_db)) = [1]
  /\ response_of
       (run (findMatches Sample.alice Fixture.astrology_groups) no_faults
          Fixture.astrology_db)
     = Ok (json (JGroups [])).
Proof. split; reflexivity. Qed.
